(** * manta-mola: the job manager (lib/job_manager.js)

    A shallow embedding of [JobManager]: the run pipeline, the audit of
    previous jobs against the jobs object (the ledger), the check for
    running jobs, and the creation of the Marlin job.

    Callback-passing code is written in a state-and-error monad.  The
    state carries what the source mutates ([opts.previousJobs],
    [opts.objects], [self.audit], ...), the remote object store, and the
    trace of remote calls and log records in the order they are issued.
    The behaviour of the remote services and of the caller-supplied
    functions is an environment [Env] of answers. *)

From stdpp Require Import base option list gmap strings.
From Stdlib Require Import ZArith Lia Sorted SpecFloat.

Local Open Scope Z_scope.
Local Open Scope string_scope.
Local Open Scope list_scope.

(** ** JavaScript values used by the source *)

(** [Math.round(d / 1000)] for an integer number of milliseconds [d]:
    JavaScript rounds halves towards plus infinity. *)
Definition round_div1000 (d : Z) : Z := (d + 500) / 1000.

(** *** Numbers

    A JavaScript number is an IEEE 754 double: [spec_float] with 53 bits
    of mantissa and the exponent of the infinities at 1024. *)
Definition double_prec : Z := 53.
Definition double_emax : Z := 1024.

(** The number an integer is read as. *)
Definition number_of_Z (z : Z) : spec_float :=
  binary_normalize double_prec double_emax z 0 false.

Definition number_div : spec_float -> spec_float -> spec_float :=
  SFdiv double_prec double_emax.

Definition number_sub : spec_float -> spec_float -> spec_float :=
  SFsub double_prec double_emax.

(** [Math.round(x)]: the integer nearest to [x], halves towards plus
    infinity; [None] stands for [NaN] and the infinities. *)
Definition Math_round (x : spec_float) : option Z :=
  match x with
  | S754_zero _ => Some 0
  | S754_finite sign m e =>
      let n := if sign then Z.neg m else Z.pos m in
      if (0 <=? e)%Z then Some (n * 2 ^ e)
      else Some ((2 * n + 2 ^ (- e)) / (2 * 2 ^ (- e)))
  | S754_infinity _ | S754_nan => None
  end.

(** [Math.round(now / 1000 - started / 1000)] for two readings in
    milliseconds; both quotients and the difference are rounded as
    doubles are. *)
Definition seconds_between (now started : Z) : option Z :=
  Math_round
    (number_sub (number_div (number_of_Z now) (number_of_Z 1000))
                (number_div (number_of_Z started) (number_of_Z 1000))).

(** An [Error] object: the fields this file reads.  [err_shouldNotFatal]
    is [None] when the property is undefined.  [err_cause] is the VError
    cause. *)
#[warnings="-register-all"]
Inductive Err : Type :=
  MkErr (name message : string) (code : option string)
        (shouldNotFatal : option bool) (cause : option Err).

Definition err_name (e : Err) : string :=
  match e with MkErr n _ _ _ _ => n end.
Definition err_message (e : Err) : string :=
  match e with MkErr _ m _ _ _ => m end.
Definition err_code (e : Err) : option string :=
  match e with MkErr _ _ c _ _ => c end.
Definition err_shouldNotFatal (e : Err) : option bool :=
  match e with MkErr _ _ _ s _ => s end.
Definition err_cause (e : Err) : option Err :=
  match e with MkErr _ _ _ _ c => c end.

(** [new Error(msg)] *)
Definition newError (msg : string) : Err := MkErr "Error" msg None None None.

(** [verror.hasCauseWithName(err, name)]: walks the chain of causes. *)
Fixpoint hasCauseWithName (e : Err) (n : string) : bool :=
  match e with
  | MkErr nm _ _ _ c =>
      if decide (nm = n) then true
      else match c with
           | Some e' => hasCauseWithName e' n
           | None => false
           end
  end.

(** ** Global objects *)

Definition QUEUED_STATE : string := "queued".
Definition RUNNING_STATE : string := "running".
Definition MAX_SECONDS_IN_AUDIT_OBJECT : Z := 60 * 60 * 24 * 7.

(** ** Data model *)

(** One entry of the jobs object.  [timeCreated] is the number of
    milliseconds [new Date(job.timeCreated).getTime()] gives. *)
Record JobRecord : Type := mkJobRecord {
  timeCreated : Z;
  audited : bool
}.

Definition set_audited (r : JobRecord) : JobRecord :=
  {| timeCreated := timeCreated r; audited := true |}.

(** The jobs object: job id to record. *)
Abbreviation Ledger := (gmap string JobRecord).

(** What is stored under a path of the object store: the JSON text of a
    jobs object, or anything [JSON.parse] rejects (also the asset
    bundle). *)
Inductive Doc : Type :=
| Json (l : Ledger)
| Raw (s : string).

Definition JSON_stringify (l : Ledger) : Doc := Json l.

Definition syntaxError : Err :=
  MkErr "SyntaxError" "Unexpected token" None None None.

Definition JSON_parse (d : Doc) : Err + Ledger :=
  match d with
  | Json l => inr l
  | Raw _ => inl syntaxError
  end.

Record Stats : Type := mkStats { errors : option Z }.

(** A job as the job service reports it. *)
Record RemoteJob : Type := mkRemoteJob {
  job_id : string;
  job_name : string;
  job_state : string;
  job_inputDone : bool;
  job_timeCreated : Z;
  job_timeDone : Z;
  job_stats : option Stats
}.

(** The audit object [auditJob] logs for a finished job; [ae_extra] is
    what a [preAudit] hook adds. *)
Record AuditEntry : Type := mkAuditEntry {
  ae_id : string;
  ae_jobErrors : Z;
  ae_timeCreated : Z;
  ae_jobDurationMillis : Z;
  ae_extra : list (string * string)
}.

Record Phase : Type := mkPhase { assets : option (list string) }.

Record JobDef : Type := mkJobDef {
  def_name : option string;
  phases : list Phase
}.

(** [self.audit] *)
Record Audit : Type := mkAudit {
  startedJob : Z;
  cronFailed : Z;
  startTime : Z;
  endTime : option Z;
  cronRunMillis : option Z;
  numberOfObjects : option nat;
  currentJobSecondsRunning : option Z
}.

(** The options the source reads and does not write. *)
Record Opts : Type := mkOpts {
  jobName : string;
  jobRoot : string;
  previousJobsObject : string;
  forceRun : bool;
  disableAllJobs : option bool;
  jobEnabled : option bool;
  noJobStart : option bool;
  assetFile : option string;
  assetObject : option string
}.

Inductive Level : Type := Debug | Info | Error | Fatal.

(** Remote calls and log records, in the order they are issued. *)
Inductive Event : Type :=
| EGetObject (path : string)
| EPut (path : string) (d : Doc)
| EMkdir (dir : string)
| EStat (file : string)
| EListJobs (name : string)
| EGetJob (id : string)
| ECancelJob (id : string)
| ECreateJob (j : JobDef)
| EAddJobKey (id : string) (objs : list string) (endInput : bool)
| EGetJobObjects
| EGetJobDefinition
| EPreAudit (id : string)
| ELog (lvl : Level) (msg : string)
| EJobAudit (a : AuditEntry)
| ERunAudit (a : Audit).

Record State : Type := mkState {
  store : gmap string Doc;
  ticks : nat;
  previousJobs : option Ledger;
  directories : option (list string);
  objects : option (list string);
  job : option JobDef;
  jobId : option string;
  audit : Audit;
  trace : list Event
}.

(** What the world answers.  [clock] gives the reading of the [n]-th
    [new Date()] of the invocation.  [latency id] is the time the job
    service takes to answer the fetch of job [id]: it decides the order
    in which the fetches of a fan-out complete. *)
Record Env : Type := mkEnv {
  clock : nat -> Z;
  latency : string -> nat;
  getObject_fault : string -> option Err;
  put_fault : string -> option Err;
  mkdir_fault : string -> option Err;
  stat : string -> Err + (bool * Z);
  listJobs : string -> Err + list string;
  getJob : string -> Err + RemoteJob;
  cancelJob : string -> option Err;
  createJob : JobDef -> Err + string;
  addJobKey : string -> list string -> option Err;
  getJobObjects : Err + option (list string);
  getJobDefinition : Err + JobDef;
  preAudit : option (RemoteJob -> AuditEntry -> option Err * AuditEntry);
  dirname : string -> string
}.

(** ** The monad of callback code

    A function of the source that ends by calling [cb(err)] or
    [cb(null, value)] is a computation that fails with [err] or returns
    [value]; [Throw] is an exception nobody catches (a failed
    [assert]). *)

Inductive Res (A : Type) : Type :=
| Ok (a : A)
| Fail (e : Err)
| Throw.
Arguments Ok {A} a.
Arguments Fail {A} e.
Arguments Throw {A}.

Definition M (A : Type) : Type := State -> Res A * State.

Definition ret {A} (a : A) : M A := fun s => (Ok a, s).
Definition fail {A} (e : Err) : M A := fun s => (Fail e, s).
Definition throw {A} : M A := fun s => (Throw, s).

Definition bind {A B} (c : M A) (k : A -> M B) : M B :=
  fun s =>
    match c s with
    | (Ok a, s') => k a s'
    | (Fail e, s') => (Fail e, s')
    | (Throw, s') => (Throw, s')
    end.

#[global] Instance M_ret : MRet M := @ret.
#[global] Instance M_bind : MBind M := fun A B k c => bind c k.

(** The callback [function (err, value)] of a call: the failure is
    handed over as a value. *)
Definition attempt {A} (c : M A) : M (Err + A) :=
  fun s =>
    match c s with
    | (Ok a, s') => (Ok (inr a), s')
    | (Fail e, s') => (Ok (inl e), s')
    | (Throw, s') => (Throw, s')
    end.

(** [cb(err)] *)
Definition callback (err : option Err) : M unit :=
  match err with
  | Some e => fail e
  | None => ret tt
  end.

Definition get : M State := fun s => (Ok s, s).
Definition modify (f : State -> State) : M unit := fun s => (Ok tt, f s).

Definition set_store (v : gmap string Doc) (s : State) : State :=
  mkState v (ticks s) (previousJobs s) (directories s) (objects s) (job s)
          (jobId s) (audit s) (trace s).
Definition set_ticks (v : nat) (s : State) : State :=
  mkState (store s) v (previousJobs s) (directories s) (objects s) (job s)
          (jobId s) (audit s) (trace s).
Definition set_previousJobs (v : option Ledger) (s : State) : State :=
  mkState (store s) (ticks s) v (directories s) (objects s) (job s)
          (jobId s) (audit s) (trace s).
Definition set_directories (v : option (list string)) (s : State) : State :=
  mkState (store s) (ticks s) (previousJobs s) v (objects s) (job s)
          (jobId s) (audit s) (trace s).
Definition set_objects (v : option (list string)) (s : State) : State :=
  mkState (store s) (ticks s) (previousJobs s) (directories s) v (job s)
          (jobId s) (audit s) (trace s).
Definition set_job (v : option JobDef) (s : State) : State :=
  mkState (store s) (ticks s) (previousJobs s) (directories s) (objects s) v
          (jobId s) (audit s) (trace s).
Definition set_jobId (v : option string) (s : State) : State :=
  mkState (store s) (ticks s) (previousJobs s) (directories s) (objects s)
          (job s) v (audit s) (trace s).
Definition set_audit (v : Audit) (s : State) : State :=
  mkState (store s) (ticks s) (previousJobs s) (directories s) (objects s)
          (job s) (jobId s) v (trace s).
Definition set_trace (v : list Event) (s : State) : State :=
  mkState (store s) (ticks s) (previousJobs s) (directories s) (objects s)
          (job s) (jobId s) (audit s) v.

Definition emit (ev : Event) : M unit :=
  modify (fun s => set_trace (trace s ++ [ev]) s).

Definition log (lvl : Level) (msg : string) : M unit := emit (ELog lvl msg).

(** [vasync.pipeline]: the functions run one after the other; the first
    failure ends the pipeline with that error. *)
Fixpoint pipeline (funcs : list (M unit)) : M unit :=
  match funcs with
  | [] => ret tt
  | f :: rest => f ;; pipeline rest
  end.

(** [vasync.forEachParallel]: every input is started, in the order of
    the inputs; [operations[i]] holds the outcome for [inputs[i]]. *)
Fixpoint forEachParallel {A B} (func : A -> M B) (inputs : list A)
  : M (list (Err + B)) :=
  match inputs with
  | [] => ret []
  | x :: xs =>
      r ← attempt (func x);
      rs ← forEachParallel func xs;
      ret (r :: rs)
  end.

(** The order in which the calls of a fan-out complete.  A call with input
    [x] takes the time [lat x]; calls that take the same time complete
    in the order they were issued. *)
Fixpoint insert_by {A} (lat : A -> nat) (x : A) (l : list A) : list A :=
  match l with
  | [] => [x]
  | y :: ys =>
      if (lat x <=? lat y)%nat then x :: l else y :: insert_by lat x ys
  end.

Definition completion_order {A} (lat : A -> nat) (l : list A) : list A :=
  foldr (insert_by lat) [] l.

(** The outcomes of a fan-out in the order the calls completed: vasync
    pushes to [results.successes] and to the errors of its [MultiError]
    as the callbacks arrive. *)
Definition completed {A B} (lat : A -> nat) (inputs : list A)
    (operations : list (Err + B)) : list (Err + B) :=
  (completion_order (fun io => lat io.1) (zip inputs operations)).*2.

(** [results.successes], from the outcomes in the order of completion. *)
Definition successes {B} (arrived : list (Err + B)) : list B :=
  omap (fun r => match r with inr b => Some b | inl _ => None end) arrived.

(** The errors, in the order of completion. *)
Definition failures {B} (arrived : list (Err + B)) : list Err :=
  omap (fun r => match r with inl e => Some e | inr _ => None end) arrived.

(** [operations[i].status === 'ok'] *)
Definition status_ok {B} (r : Err + B) : bool :=
  match r with inr _ => true | inl _ => false end.

(** The error [vasync.forEachParallel] calls back with: a [MultiError]
    whose cause is the first error, when some operation failed. *)
Definition multiError (errs : list Err) : option Err :=
  match errs with
  | [] => None
  | e :: _ => Some (MkErr "MultiError" "first of the errors" None None (Some e))
  end.

(** ** The job manager *)

Section JobManager.

Variable env : Env.
Variable opts : Opts.

(** [new Date()] *)
Definition newDate : M Z :=
  fun s => (Ok (clock env (ticks s)), set_ticks (S (ticks s)) s).

(** *** Remote calls *)

Definition resourceNotFound : Err :=
  MkErr "ResourceNotFoundError" "object does not exist"
        (Some "ResourceNotFound") None None.

(** Modelled from the spec: [common.getObject] of lib/common.js, which is
    not part of the sources at hand: [getObject(path)] gives the bytes
    stored under the path, or a not-found error. *)
Definition getObject (path : string) : M Doc :=
  emit (EGetObject path);;
  match getObject_fault env path with
  | Some e => fail e
  | None =>
      s ← get;
      match store s !! path with
      | Some d => ret d
      | None => fail resourceNotFound
      end
  end.

(** Modelled from the spec: [common.getJob] of lib/common.js, which is
    not part of the sources at hand: [getJobStatus(jobId)] gives the
    state, [inputDone], the times and the error count of the job. *)
Definition getJobStatus (id : string) : M RemoteJob :=
  emit (EGetJob id);;
  match getJob env id with
  | inl e => fail e
  | inr j => ret j
  end.

(** [mantaClient.put(path, stream, o, cb)] *)
Definition put (path : string) (d : Doc) : M unit :=
  emit (EPut path d);;
  match put_fault env path with
  | Some e => fail e
  | None => modify (fun s => set_store (<[path:=d]> (store s)) s)
  end.

(** *** Auditing previous jobs *)

(** The audit object [auditJob] builds. *)
Definition auditOf (j : RemoteJob) : AuditEntry :=
  {| ae_id := job_id j;
     ae_jobErrors :=
       match job_stats j with
       | Some st =>
           match errors st with
           | Some n => if decide (n = 0) then 0 else n
           | None => 0
           end
       | None => 0
       end;
     ae_timeCreated := job_timeCreated j;
     ae_jobDurationMillis := job_timeDone j - job_timeCreated j;
     ae_extra := [] |}.

Definition auditJob (j : RemoteJob) : M unit :=
  if decide (job_state j = RUNNING_STATE ∨ job_state j = QUEUED_STATE)
  then fail (newError "Job is still running")
  else
    let a := auditOf j in
    match preAudit env with
    | Some hook =>
        emit (EPreAudit (job_id j));;
        match hook j a with
        | (Some err, _) => log Error "preaudit error";; fail err
        | (None, a') => emit (EJobAudit a');; ret tt
        end
    | None => emit (EJobAudit a);; ret tt
    end.

(** The [for (var jobId in pJobs)] loop; the entries come in the order
    [map_to_list] gives them.  [new Date()] is read for every entry. *)
Fixpoint partitionJobs (entries : list (string * JobRecord))
    (jobsToAudit jobsToDelete : list string)
  : M (list string * list string) :=
  match entries with
  | [] => ret (jobsToAudit, jobsToDelete)
  | (jid, j) :: rest =>
      now ← newDate;
      let created := timeCreated j in
      let secondsSinceDone := round_div1000 (now - created) in
      let jobsToAudit' :=
        if audited j then jobsToAudit else jobsToAudit ++ [jid] in
      let jobsToDelete' :=
        if secondsSinceDone >? MAX_SECONDS_IN_AUDIT_OBJECT
        then jobsToDelete ++ [jid] else jobsToDelete in
      partitionJobs rest jobsToAudit' jobsToDelete'
  end.

(** The loop over [jobsToAudit[i]] and [results2.operations[i]]. *)
Fixpoint markAudited (ops : list (string * (Err + unit))) (pJobs : Ledger)
  : M Ledger :=
  match ops with
  | [] => ret pJobs
  | (cJobId, op) :: rest =>
      log Debug "got status for job";;
      markAudited rest
        (if status_ok op then alter set_audited cJobId pJobs else pJobs)
  end.

(** The attempt to audit all fetched jobs: the second fan-out and the
    loop that marks the entries of the jobs that passed. *)
Definition auditFetched (jobsToAudit : list string)
    (jobObjects : list RemoteJob) (pJobs : Ledger) : M Ledger :=
  results2 ← forEachParallel auditJob jobObjects;
  markAudited (zip jobsToAudit results2) pJobs.

(** The loop over [jobsToDelete]. *)
Fixpoint deleteAudited (jobsToDelete : list string) (pJobs : Ledger) : Ledger :=
  match jobsToDelete with
  | [] => pJobs
  | dJobId :: rest =>
      deleteAudited rest
        (match pJobs !! dJobId with
         | Some r => if audited r then delete dJobId pJobs else pJobs
         | None => pJobs
         end)
  end.

Definition setPreviousJobs (l : Ledger) : M unit :=
  modify (set_previousJobs (Some l)).

(** [gotObject] once the jobs object is parsed.  [jobObjects[i]] is
    [results.successes[i]], the [i]-th job to arrive, and the marking
    loop sets the flag of [jobsToAudit[i]] by the outcome of its
    audit. *)
Definition auditParsed (pJobs : Ledger) : M unit :=
  setPreviousJobs pJobs;;
  '(jobsToAudit, jobsToDelete) ← partitionJobs (map_to_list pJobs) [] [];
  match jobsToAudit with
  | [] => log Info "No jobs to audit."
  | _ :: _ =>
      results ← forEachParallel getJobStatus jobsToAudit;
      let arrived := completed (latency env) jobsToAudit results in
      match multiError (failures arrived) with
      | Some err2 => fail err2
      | None =>
          let jobObjects := successes arrived in
          marked ← auditFetched jobsToAudit jobObjects pJobs;
          setPreviousJobs (deleteAudited jobsToDelete marked)
      end
  end.

Definition gotObject (r : Err + Doc) : M unit :=
  match r with
  | inl err =>
      if decide (err_code err = Some "ResourceNotFound")
      then log Info "doesn't exist yet, continuing."
      else fail err
  | inr data =>
      match JSON_parse data with
      | inl err2 => fail err2
      | inr pJobs => auditParsed pJobs
      end
  end.

Definition auditPreviousJobs : M unit :=
  log Info "Auditing previous jobs.";;
  let objPath := previousJobsObject opts in
  setPreviousJobs ∅;;
  r ← attempt (getObject objPath);
  gotObject r.

(** *** Running jobs *)

(** [getNextJob]: the listed jobs are fetched one after the other; the
    first name that is missing or empty ends the walk. *)
Fixpoint getNextJob (jobs : list string) (jobObjs : list RemoteJob)
  : M (list RemoteJob) :=
  match jobs with
  | [] => ret jobObjs
  | jid :: rest =>
      if decide (jid = "") then ret jobObjs
      else
        j ← getJobStatus jid;
        getNextJob rest (jobObjs ++ [j])
  end.

Definition runningJobs (jobObjs : list RemoteJob) : list RemoteJob :=
  filter (fun j => job_state j ≠ "done") jobObjs.

Definition checkResults (jobObjs : list RemoteJob) : M (option RemoteJob) :=
  match runningJobs jobObjs with
  | [] => ret None
  | [j] => ret (Some j)
  | _ :: _ :: _ =>
      let message := "more than one job with name found" in
      log Error message;;
      fail (newError message)
  end.

Definition findRunningJobs : M (option RemoteJob) :=
  emit (EListJobs (jobName opts));;
  match listJobs env (jobName opts) with
  | inl err => fail err
  | inr jobs =>
      jobObjs ← getNextJob jobs [];
      checkResults jobObjs
  end.

Definition set_currentJobSecondsRunning (v : option Z) (a : Audit) : Audit :=
  mkAudit (startedJob a) (cronFailed a) (startTime a) (endTime a)
          (cronRunMillis a) (numberOfObjects a) v.

Definition alreadyRunning : Err :=
  MkErr "Error" "Job Already running" None (Some true) None.

Definition checkRunningJobs : M unit :=
  found ← findRunningJobs;
  match found with
  | Some j =>
      if negb (job_inputDone j) then
        emit (ECancelJob (job_id j));;
        log Info "Attempted to cancel job.";;
        callback (cancelJob env (job_id j))
      else
        let started := job_timeCreated j in
        now ← newDate;
        modify (fun s =>
          set_audit (set_currentJobSecondsRunning
                       (seconds_between now started) (audit s)) s);;
        log Info "Job already running.";;
        fail alreadyRunning
  | None => log Info "No running jobs, continuing..."
  end.

(** *** Directories and the asset *)

(** A string in a condition: the empty string counts as absent. *)
Definition truthy (o : option string) : option string :=
  match o with
  | Some v => if decide (v = "") then None else Some v
  | None => None
  end.

Definition push_new (x : string) (l : list string) : list string :=
  if decide (x ∈ l) then l else l ++ [x].

(** [Array.prototype.sort()] on strings. *)
Fixpoint insert_sorted (x : string) (l : list string) : list string :=
  match l with
  | [] => [x]
  | y :: ys =>
      if String.ltb y x || String.eqb y x then y :: insert_sorted x ys
      else x :: l
  end.

Definition sort (l : list string) : list string :=
  foldr insert_sorted [] (reverse l).

Definition mkdir (dir : string) : M unit :=
  emit (EMkdir dir);;
  callback (mkdir_fault env dir).

Definition setupDirectories : M unit :=
  s ← get;
  let dirs0 := default [] (directories s) in
  let dirs1 := push_new (jobRoot opts) dirs0 in
  let dirs2 :=
    match truthy (assetObject opts) with
    | Some a => push_new (dirname env a) dirs1
    | None => dirs1
    end in
  let dirs := sort dirs2 in
  modify (set_directories (Some dirs));;
  log Info "Creating directories.";;
  pipeline (map mkdir dirs).

Definition setupAssetObject : M unit :=
  match assetFile opts with
  | None => ret tt
  | Some file =>
      match assetObject opts with
      | None => throw
      | Some p =>
          log Info "Setting up asset object.";;
          emit (EStat file);;
          match stat env file with
          | inl err2 => fail err2
          | inr (isFile, _) =>
              if isFile then put p (Raw file)
              else fail (newError (String.append file " isn't a file"))
          end
      end
  end.

(** *** The caller's functions *)

Definition noObjects : Err :=
  MkErr "Error" "No objects provided." None (Some true) None.

Definition invokeGetJobObjects : M unit :=
  emit EGetJobObjects;;
  match getJobObjects env with
  | inl err => fail err
  | inr None | inr (Some []) =>
      log Info "No objects returned from getJobObjects.  Not starting job.";;
      fail noObjects
  | inr (Some objs) => modify (set_objects (Some objs))
  end.

Definition addAsset (a : string) (p : Phase) : Phase :=
  mkPhase (Some (push_new a (default [] (assets p)))).

Definition invokeGetJobDefinition : M unit :=
  emit EGetJobDefinition;;
  match getJobDefinition env with
  | inl err => fail err
  | inr j =>
      let named (n : string) :=
        let ps :=
          match truthy (assetObject opts) with
          | Some a => map (addAsset a) (phases j)
          | None => phases j
          end in
        modify (set_job (Some (mkJobDef (Some n) ps))) in
      match truthy (def_name j) with
      | Some n =>
          if decide (n = jobName opts) then named n
          else fail (newError "Given job name doesn't match opts.jobName.")
      | None => named (jobName opts)
      end
  end.

(** *** Creating the job *)

Definition set_started (n : nat) (a : Audit) : Audit :=
  mkAudit 1 (cronFailed a) (startTime a) (endTime a) (cronRunMillis a)
          (Some n) (currentJobSecondsRunning a).

Definition createMarlinJob : M unit :=
  s ← get;
  match job s with
  | None => throw
  | Some j =>
      log Info "Marlin Job Definition and Objects";;
      match noJobStart opts with
      | Some true => ret tt
      | _ =>
          emit (ECreateJob j);;
          match createJob env j with
          | inl err => fail err
          | inr jid =>
              modify (set_jobId (Some jid));;
              now ← newDate;
              match previousJobs s with
              | None => throw
              | Some pJobs =>
                  setPreviousJobs (<[jid := mkJobRecord now false]> pJobs);;
                  log Info "Created Job.";;
                  match objects s with
                  | None => throw
                  | Some objs =>
                      emit (EAddJobKey jid objs true);;
                      match addJobKey env jid objs with
                      | Some err2 => fail err2
                      | None =>
                          log Info "Added objects to job";;
                          modify (fun s' =>
                            set_audit (set_started (length objs) (audit s')) s')
                      end
                  end
              end
          end
      end
  end.

(** *** The run *)

Definition jobDisabled : string := "JobDisabled".

Definition disabledError (msg : string) : Err :=
  MkErr jobDisabled msg None None None.

Definition stopIfDisabled : M unit :=
  if forceRun opts then log Info "Forcing job run"
  else if decide (disableAllJobs opts = Some true)
  then fail (disabledError "all jobs are disabled")
  else if decide (jobEnabled opts = Some false)
  then fail (disabledError (String.append (jobName opts) " is disabled"))
  else ret tt.

Definition recordJobs : M unit :=
  s ← get;
  match previousJobs s with
  | None => throw
  | Some pJobs => put (previousJobsObject opts) (JSON_stringify pJobs)
  end.

Definition set_end (t : Z) (a : Audit) : Audit :=
  mkAudit (startedJob a) (cronFailed a) (startTime a) (Some t)
          (Some (t - startTime a)) (numberOfObjects a)
          (currentJobSecondsRunning a).

Definition set_cronFailed (v : Z) (a : Audit) : Audit :=
  mkAudit (startedJob a) v (startTime a) (endTime a) (cronRunMillis a)
          (numberOfObjects a) (currentJobSecondsRunning a).

Definition writeAuditRecord : M unit :=
  match noJobStart opts with
  | Some true => ret tt
  | _ =>
      t ← newDate;
      modify (fun s => set_audit (set_end t (audit s)) s);;
      s ← get;
      emit (ERunAudit (audit s))
  end.

Definition stages : list (M unit) :=
  [ stopIfDisabled;
    auditPreviousJobs;
    checkRunningJobs;
    setupDirectories;
    setupAssetObject;
    invokeGetJobObjects;
    invokeGetJobDefinition;
    createMarlinJob ].

Definition ignoredPutError (err2 : Err) : bool :=
  bool_decide (err_code err2 = Some "ResourceNotFound")
  || bool_decide (err_code err2 = Some "DirectoryDoesNotExist").

(** The part of the pipeline's callback after the [jobDisabled] case. *)
Definition recordAndReport (err : option Err) : M (option Err) :=
  match err with
  | Some e =>
      match err_shouldNotFatal e with
      | None => log Fatal "Error."
      | Some _ => modify (fun s => set_audit (set_cronFailed 0 (audit s)) s)
      end
  | None => modify (fun s => set_audit (set_cronFailed 0 (audit s)) s)
  end;;
  r2 ← attempt recordJobs;
  match r2 with
  | inl err2 =>
      if ignoredPutError err2 then ret tt
      else log Info "Error saving audit."
  | inr _ => ret tt
  end;;
  writeAuditRecord;;
  ret err.

(** The pipeline's callback; the result is what [cb] is called with. *)
Definition pipelineDone (err : option Err) : M (option Err) :=
  match err with
  | Some e =>
      if hasCauseWithName e jobDisabled then
        log Info (err_message e);;
        writeAuditRecord;;
        ret None
      else recordAndReport err
  | None => recordAndReport err
  end.

Definition initialAudit (start : Z) : Audit :=
  mkAudit 0 1 start None None None None.

Definition result_err (r : Err + unit) : option Err :=
  match r with
  | inl e => Some e
  | inr _ => None
  end.

Definition run : M (option Err) :=
  start ← newDate;
  modify (set_audit (initialAudit start));;
  r ← attempt (pipeline stages);
  pipelineDone (result_err r).

End JobManager.

(** * Notions used in the statements *)

Section Notions.

Variable env : Env.
Variable opts : Opts.

(** Appending events to the trace. *)
Definition add_events (evs : list Event) (s : State) : State :=
  set_trace (trace s ++ evs) s.

Definition still_running (j : RemoteJob) : bool :=
  bool_decide (job_state j = RUNNING_STATE ∨ job_state j = QUEUED_STATE).

(** Whether [auditJob] calls back without an error. *)
Definition audit_succeeds (j : RemoteJob) : bool :=
  if still_running j then false
  else match preAudit env with
       | Some hook =>
           match hook j (auditOf j) with
           | (Some _, _) => false
           | (None, _) => true
           end
       | None => true
       end.

Definition audit_error (j : RemoteJob) : Err :=
  if still_running j then newError "Job is still running"
  else match preAudit env with
       | Some hook =>
           match hook j (auditOf j) with
           | (Some err, _) => err
           | (None, _) => newError ""
           end
       | None => newError ""
       end.

Definition audit_events (j : RemoteJob) : list Event :=
  if still_running j then []
  else match preAudit env with
       | Some hook =>
           match hook j (auditOf j) with
           | (Some _, _) =>
               [EPreAudit (job_id j); ELog Error "preaudit error"]
           | (None, a') => [EPreAudit (job_id j); EJobAudit a']
           end
       | None => [EJobAudit (auditOf j)]
       end.

Definition audit_op (j : RemoteJob) : Err + unit :=
  if audit_succeeds j then inr tt else inl (audit_error j).

(** The classification of a job succeeds: [auditJob] calls back without
    an error, whatever the state it is run in. *)
Definition classified (j : RemoteJob) : Prop :=
  forall s, fst (auditJob env j s) = Ok tt.

(** An entry is older than the maximum, seen from [now]. *)
Definition expired (now : Z) (r : JobRecord) : bool :=
  round_div1000 (now - timeCreated r) >? MAX_SECONDS_IN_AUDIT_OBJECT.

Definition to_audit (entries : list (string * JobRecord)) : list string :=
  (filter (fun e => audited e.2 = false) entries).*1.

Fixpoint to_delete (t : nat) (entries : list (string * JobRecord))
  : list string :=
  match entries with
  | [] => []
  | (k, r) :: rest =>
      (if expired (clock env t) r then [k] else []) ++ to_delete (S t) rest
  end.

Definition mark_step (L : Ledger) (z : string * (Err + unit)) : Ledger :=
  if status_ok z.2 then alter set_audited z.1 L else L.

Definition mark_pure (zs : list (string * (Err + unit))) (L : Ledger)
  : Ledger :=
  foldl mark_step L zs.

Definition ok_keys (zs : list (string * (Err + unit))) : list string :=
  (filter (fun z => status_ok z.2 = true) zs).*1.

Definition debug_logs (n : nat) : list Event :=
  replicate n (ELog Debug "got status for job").

(** The job ids of a fan-out in the order their fetches complete. *)
Definition arrival (ks : list string) : list string :=
  completion_order (latency env) ks.

(** The calls of the second fan-out, paired with the job ids as the
    marking loop pairs them: the [i]-th id with the audit of the [i]-th
    job to arrive. *)
Definition audit_ops (ja : list string) : list (string * (Err + unit)) :=
  zip ja (map audit_op (successes (map (getJob env) (arrival ja)))).


(** The job service answers every fetch of [ja]. *)
Definition all_fetched (ja : list string) : Prop :=
  forall k, k ∈ ja -> exists j, getJob env k = inr j.

(** The fields no stage between the audit of previous jobs and the
    creation of the job writes. *)
Definition frame (s s' : State) : Prop :=
  previousJobs s' = previousJobs s /\
  startedJob (audit s') = startedJob (audit s) /\
  numberOfObjects (audit s') = numberOfObjects (audit s) /\
  cronFailed (audit s') = cronFailed (audit s).

(** [c] keeps the frame, and throws nothing when [P] holds. *)
Definition quiet (P : Prop) {A} (c : M A) : Prop :=
  forall s, (P -> fst (c s) <> Throw) /\ frame s (snd (c s)).

(** The assertion of [setupAssetObject] holds. *)
Definition asset_ok (o : Opts) : Prop :=
  assetFile o = None \/ is_Some (assetObject o).

(** The stages between the audit of previous jobs and the creation of
    the job. *)
Definition middle_stages : list (M unit) :=
  [ checkRunningJobs env opts;
    setupDirectories env opts;
    setupAssetObject env opts;
    invokeGetJobObjects env;
    invokeGetJobDefinition env opts ].

(** The state the pipeline starts in. *)
Definition started (s : State) : State :=
  set_audit (initialAudit (clock env (ticks s))) (set_ticks (S (ticks s)) s).

(** The job is not switched off. *)
Definition enabled (o : Opts) : bool :=
  forceRun o
  || (negb (bool_decide (disableAllJobs o = Some true))
      && negb (bool_decide (jobEnabled o = Some false))).

(** The error is one the run logs as fatal. *)
Definition fatal (err : option Err) : bool :=
  match err with
  | Some e =>
      match err_shouldNotFatal e with
      | None => true
      | Some _ => false
      end
  | None => false
  end.

Definition fatal_log (err : option Err) : list Event :=
  if fatal err then [ELog Fatal "Error."] else [].

Definition save_log : list Event :=
  match put_fault env (previousJobsObject opts) with
  | Some err2 =>
      if ignoredPutError err2 then [] else [ELog Info "Error saving audit."]
  | None => []
  end.

(** The audit record of the run, as the final state holds it. *)
Definition audit_record (s : State) : list Event :=
  match noJobStart opts with
  | Some true => []
  | _ => [ERunAudit (audit s)]
  end.

Definition stored (L : Ledger) (st : gmap string Doc) : gmap string Doc :=
  match put_fault env (previousJobsObject opts) with
  | Some _ => st
  | None => <[previousJobsObject opts := JSON_stringify L]> st
  end.

End Notions.

(** * Notions of the further properties *)

(** The event is not a call that creates a job or adds its objects. *)
Definition not_creating (ev : Event) : Prop :=
  match ev with
  | ECreateJob _ | EAddJobKey _ _ _ => False
  | _ => True
  end.

Definition not_cancelling (ev : Event) : Prop :=
  match ev with
  | ECancelJob _ => False
  | _ => True
  end.

(** The event is not a put to [path]. *)
Definition not_writing (path : string) (ev : Event) : Prop :=
  match ev with
  | EPut p _ => p <> path
  | _ => True
  end.

(** [c] only reads the clock forward and only adds events of kind [Q]
    to the trace. *)
Definition tame (Q : Event -> Prop) {A} (c : M A) : Prop :=
  forall s,
    (ticks s <= ticks (snd (c s)))%nat /\
    exists evs, trace (snd (c s)) = trace s ++ evs /\ Forall Q evs.

(** The job id of a fetch. *)
Definition fetched_id (ev : Event) : option string :=
  match ev with
  | EGetJob id => Some id
  | _ => None
  end.

(** The audit object of a job audit record. *)
Definition audit_logged (ev : Event) : option AuditEntry :=
  match ev with
  | EJobAudit a => Some a
  | _ => None
  end.

(** The directory of a [mkdir]. *)
Definition made_dir (ev : Event) : option string :=
  match ev with
  | EMkdir d => Some d
  | _ => None
  end.

(** The document of a put to [path]. *)
Definition put_at (path : string) (ev : Event) : option Doc :=
  match ev with
  | EPut p d => if decide (p = path) then Some d else None
  | _ => None
  end.

(** The event is none of those a run with [noJobStart] leaves out: the
    creation of a job, the adding of its objects, the audit record of
    the run. *)
Definition dry_event (ev : Event) : Prop :=
  match ev with
  | ECreateJob _ | EAddJobKey _ _ _ | ERunAudit _ => False
  | _ => True
  end.

(** The job id of a cancel. *)
Definition cancelled_id (ev : Event) : option string :=
  match ev with
  | ECancelJob id => Some id
  | _ => None
  end.

(** The job service answers the fetches of [ids] with [jobs]. *)
Definition fetches (env : Env) (ids : list string) (jobs : list RemoteJob)
  : Prop :=
  Forall2 (fun id j => getJob env id = inr j) ids jobs.

(** [ids] are the names of the listing that [getNextJob] walks: those
    before the first empty one. *)
Definition walked (names ids : list string) : Prop :=
  exists rest,
    names = ids ++ rest /\ Forall (fun id => id <> "") ids /\
    (rest = [] \/ head rest = Some "").

(** The order [Array.prototype.sort()] sorts strings by. *)
Definition str_le (a b : string) : Prop := String.leb a b = true.

(** No [mkdir] of the directories fails. *)
Definition all_made (env : Env) (dirs : list string) : Prop :=
  Forall (fun d => mkdir_fault env d = None) dirs.

(** The options with the two switches set to [all] and [one]. *)
Definition with_switches (all one : option bool) (o : Opts) : Opts :=
  mkOpts (jobName o) (jobRoot o) (previousJobsObject o) (forceRun o)
         all one (noJobStart o) (assetFile o) (assetObject o).

(** * Concrete worlds *)

Definition gcPath : string := "/poseidon/stor/manta_gc/jobs.json".

Definition gcOpts : Opts :=
  mkOpts "gc" "/poseidon/stor/manta_gc" gcPath false None None None None None.

Definition gcOff : Opts :=
  mkOpts "gc" "/poseidon/stor/manta_gc" gcPath false (Some true) None None
         None None.

Definition doneJob (id : string) : RemoteJob :=
  mkRemoteJob id "gc" "done" true 0 3600000 (Some (mkStats (Some 0))).

Definition liveJob (id : string) (inputDone : bool) : RemoteJob :=
  mkRemoteJob id "gc" "running" inputDone 1000 0 None.

Definition refused : Err := MkErr "InternalError" "refused" None None None.

(** A world where the clock stands at [now], the job service knows the
    jobs [jobs] and lists [listing] under the name, the caller has the
    objects [objs], and adding the objects answers [attach]. *)
Definition world (now : Z) (jobs : string -> Err + RemoteJob)
    (listing : list string) (objs : option (list string))
    (attach : option Err) : Env :=
  {| clock := fun _ => now;
     latency := fun _ => 0%nat;
     getObject_fault := fun _ => None;
     put_fault := fun _ => None;
     mkdir_fault := fun _ => None;
     stat := fun _ => inr (true, 1);
     listJobs := fun _ => inr listing;
     getJob := jobs;
     cancelJob := fun _ => None;
     createJob := fun _ => inr "job-2";
     addJobKey := fun _ _ => attach;
     getJobObjects := inr objs;
     getJobDefinition := inr (mkJobDef None [mkPhase None]);
     preAudit := None;
     dirname := fun p => p |}.

Definition allDone (id : string) : Err + RemoteJob := inr (doneJob id).

Definition fresh (st : gmap string Doc) : State :=
  mkState st 0 None None None None None (initialAudit 0) [].

Definition oneEntry (created : Z) (a : bool) : Ledger :=
  {[ "job-1" := mkJobRecord created a ]}.

Definition day : Z := 24 * 60 * 60 * 1000.

Definition plainWorld : Env := world 0 allDone [] (Some ["/a/o"]) None.

Definition corruptStore : gmap string Doc := {[ gcPath := Raw "{oops" ]}.

Definition noObjectsWorld : Env := world 0 allDone [] (Some []) None.



Definition twoEntries : Ledger :=
  {[ "job-0" := mkJobRecord 0 true; "job-1" := mkJobRecord 0 false ]}.

Definition eightDaysWorld : Env := world (8 * day) allDone [] None None.

Definition liveWorld : Env :=
  world 61000 (fun id => inr (liveJob id true)) ["job-9"] None None.

Definition refusingWorld : Env :=
  world 0 (fun _ => inl refused) [] None None.


Definition attachWorld : Env :=
  world 5000 allDone [] (Some ["/a/o"]) (Some refused).

Definition beforeCreate : State :=
  snd (pipeline (take 7 (stages attachWorld gcOpts))
         (started attachWorld (fresh ∅))).

(** Two jobs wait for their audit: [job-1] is done, [job-2] is still
    running, and the answer to the fetch of [job-1] takes longer than
    the answer to the fetch of [job-2]. *)
Definition twoUnaudited : Ledger :=
  {[ "job-1" := mkJobRecord 0 false; "job-2" := mkJobRecord 0 false ]}.

Definition outOfOrderWorld : Env :=
  {| clock := fun _ => 0;
     latency := fun id => if decide (id = "job-1") then 1%nat else 0%nat;
     getObject_fault := fun _ => None;
     put_fault := fun _ => None;
     mkdir_fault := fun _ => None;
     stat := fun _ => inr (true, 1);
     listJobs := fun _ => inr [];
     getJob := fun id =>
       if decide (id = "job-2") then inr (liveJob id true)
       else inr (doneJob id);
     cancelJob := fun _ => None;
     createJob := fun _ => inr "job-3";
     addJobKey := fun _ _ => None;
     getJobObjects := inr None;
     getJobDefinition := inr (mkJobDef None [mkPhase None]);
     preAudit := None;
     dirname := fun p => p |}.


(** Two jobs of the name are running. *)
Definition twoLiveWorld : Env :=
  world 0 (fun id => inr (liveJob id true)) ["job-8"; "job-9"] None None.

(** A job created 200 ms after the epoch is seen running at 700 ms. *)
Definition earlyJob (id : string) : RemoteJob :=
  mkRemoteJob id "gc" "running" true 200 0 None.

Definition earlyWorld : Env :=
  world 700 (fun id => inr (earlyJob id)) ["job-9"] None None.

(** The collector with an asset file and no asset object. *)
Definition gcNoAssetObject : Opts :=
  mkOpts "gc" "/poseidon/stor/manta_gc" gcPath false None None None
         (Some "/opt/smartdc/common/bundle/mola.tar.gz") None.

(** The collector forced to run. *)
Definition gcForced : Opts :=
  mkOpts "gc" "/poseidon/stor/manta_gc" gcPath true None None None None None.

(** The collector with its asset. *)
Definition gcAssetPath : string := "/poseidon/stor/manta_gc/assets/mola.tar.gz".

Definition gcAsset : Opts :=
  mkOpts "gc" "/poseidon/stor/manta_gc" gcPath false None None None
         (Some "/opt/smartdc/common/bundle/mola.tar.gz") (Some gcAssetPath).

(** [plainWorld] with a store that refuses every fetch. *)
Definition unreadableWorld : Env :=
  {| clock := clock plainWorld;
     latency := latency plainWorld;
     getObject_fault := fun _ => Some refused;
     put_fault := put_fault plainWorld;
     mkdir_fault := mkdir_fault plainWorld;
     stat := stat plainWorld;
     listJobs := listJobs plainWorld;
     getJob := getJob plainWorld;
     cancelJob := cancelJob plainWorld;
     createJob := createJob plainWorld;
     addJobKey := addJobKey plainWorld;
     getJobObjects := getJobObjects plainWorld;
     getJobDefinition := getJobDefinition plainWorld;
     preAudit := preAudit plainWorld;
     dirname := dirname plainWorld |}.

(** The collector asked not to start a job. *)
Definition gcDry : Opts :=
  mkOpts "gc" "/poseidon/stor/manta_gc" gcPath false None None (Some true)
         None None.

(** One job of the name is running with its input open. *)
Definition openInputWorld : Env :=
  world 61000 (fun id => inr (liveJob id false)) ["job-9"] None None.

(** A definition with an asset list of its own. *)
Definition ownAssets : JobDef :=
  mkJobDef (Some "gc") [mkPhase (Some ["/a/lib.tgz"]); mkPhase None].

Definition ownAssetsWorld : Env :=
  {| clock := clock plainWorld;
     latency := latency plainWorld;
     getObject_fault := getObject_fault plainWorld;
     put_fault := put_fault plainWorld;
     mkdir_fault := mkdir_fault plainWorld;
     stat := stat plainWorld;
     listJobs := listJobs plainWorld;
     getJob := getJob plainWorld;
     cancelJob := cancelJob plainWorld;
     createJob := createJob plainWorld;
     addJobKey := addJobKey plainWorld;
     getJobObjects := getJobObjects plainWorld;
     getJobDefinition := inr ownAssets;
     preAudit := preAudit plainWorld;
     dirname := dirname plainWorld |}.

(** * Properties *)

(** ** The monad *)

Ltac munfold :=
  unfold mbind, M_bind, mret, M_ret, bind, ret, fail, throw, modify, emit,
    log, get, callback, attempt in *.

Lemma set_trace_trace (s : State) : set_trace (trace s) s = s.
Proof. by destruct s. Qed.

Lemma set_trace_set_trace (t1 t2 : list Event) (s : State) :
  set_trace t1 (set_trace t2 s) = set_trace t1 s.
Proof. by destruct s. Qed.

Lemma set_ticks_set_ticks (a b : nat) (s : State) :
  set_ticks a (set_ticks b s) = set_ticks a s.
Proof. by destruct s. Qed.

Lemma store_set_trace (t : list Event) (s : State) :
  store (set_trace t s) = store s.
Proof. reflexivity. Qed.

Lemma store_set_previousJobs (v : option Ledger) (s : State) :
  store (set_previousJobs v s) = store s.
Proof. reflexivity. Qed.

Lemma add_events_nil (s : State) : add_events [] s = s.
Proof. unfold add_events. rewrite app_nil_r. apply set_trace_trace. Qed.

Lemma add_events_app (e1 e2 : list Event) (s : State) :
  add_events e2 (add_events e1 s) = add_events (e1 ++ e2) s.
Proof.
  unfold add_events. destruct s; simpl. unfold set_trace; simpl.
  by rewrite app_assoc.
Qed.

(** Two states built from [s] by the setters are equal. *)
Ltac state_eq s :=
  unfold add_events, set_trace, set_ticks, set_previousJobs, set_audit,
    set_store, set_objects, set_job, set_jobId, set_directories;
  destruct s; simpl; rewrite <- ?app_assoc; simpl; reflexivity.

(** The same by call-by-value reduction, for deeply nested updates. *)
Ltac state_cbv :=
  cbv beta iota delta
    [add_events set_trace set_ticks set_previousJobs set_audit set_store
     set_objects set_job set_jobId set_directories
     store ticks previousJobs directories objects job jobId audit trace];
  rewrite <- ?app_assoc; reflexivity.

Lemma trace_set_previousJobs (v : option Ledger) (s : State) :
  trace (set_previousJobs v s) = trace s.
Proof. reflexivity. Qed.

Lemma trace_set_ticks (t : nat) (s : State) :
  trace (set_ticks t s) = trace s.
Proof. reflexivity. Qed.

Lemma trace_add_events (evs : list Event) (s : State) :
  trace (add_events evs s) = trace s ++ evs.
Proof. by destruct s. Qed.

Lemma emit_run (ev : Event) (s : State) :
  emit ev s = (Ok tt, add_events [ev] s).
Proof. reflexivity. Qed.

(** A failing function ends the pipeline: what comes after it is not
    run. *)
Lemma pipeline_app (pre post : list (M unit)) (s : State) :
  pipeline (pre ++ post) s =
  match pipeline pre s with
  | (Ok _, s1) => pipeline post s1
  | r => r
  end.
Proof.
  revert s. induction pre as [|f pre IH]; intros s; simpl.
  - reflexivity.
  - munfold. destruct (f s) as [[[]|e|] s1]; simpl; try reflexivity.
    apply IH.
Qed.

Lemma pipeline_short_circuit (pre post : list (M unit)) (f : M unit)
    (s s1 s2 : State) (e : Err) :
  pipeline pre s = (Ok tt, s1) ->
  f s1 = (Fail e, s2) ->
  pipeline (pre ++ f :: post) s = (Fail e, s2).
Proof.
  intros Hpre Hf. rewrite pipeline_app, Hpre. simpl. munfold. by rewrite Hf.
Qed.

(** ** Auditing one job *)

Section AuditJob.

Variable env : Env.

Lemma auditJob_run (j : RemoteJob) (s : State) :
  auditJob env j s =
  (if audit_succeeds env j then Ok tt else Fail (audit_error env j),
   add_events (audit_events env j) s).
Proof.
  unfold auditJob, audit_succeeds, audit_error, audit_events, still_running.
  destruct (decide (job_state j = RUNNING_STATE ∨ job_state j = QUEUED_STATE))
    as [Hr|Hr].
  - rewrite bool_decide_eq_true_2 by done. munfold.
    by rewrite add_events_nil.
  - rewrite bool_decide_eq_false_2 by done.
    destruct (preAudit env) as [hook|]; [|reflexivity].
    munfold. simpl. destruct (hook j (auditOf j)) as [[err|] a']; simpl;
      state_eq s.
Qed.


Lemma forEachParallel_auditJob (js : list RemoteJob) (s : State) :
  forEachParallel (auditJob env) js s =
  (Ok (map (audit_op env) js),
   add_events (concat (map (audit_events env) js)) s).
Proof.
  revert s. induction js as [|j js IH]; intros s; simpl.
  - munfold. by rewrite add_events_nil.
  - munfold. rewrite auditJob_run. unfold audit_op.
    destruct (audit_succeeds env j); simpl; rewrite IH, add_events_app;
      reflexivity.
Qed.

Lemma getJobStatus_run (k : string) (s : State) :
  getJobStatus env k s =
  (match getJob env k with inl e => Fail e | inr j => Ok j end,
   add_events [EGetJob k] s).
Proof.
  unfold getJobStatus. munfold. by destruct (getJob env k).
Qed.

Lemma forEachParallel_getJobStatus (ks : list string) (s : State) :
  forEachParallel (getJobStatus env) ks s =
  (Ok (map (getJob env) ks), add_events (map EGetJob ks) s).
Proof.
  revert s. induction ks as [|k ks IH]; intros s; simpl.
  - munfold. by rewrite add_events_nil.
  - munfold. rewrite getJobStatus_run.
    destruct (getJob env k) as [e|j]; simpl; rewrite IH, add_events_app;
      reflexivity.
Qed.

End AuditJob.

(** ** The loops of the audit of previous jobs *)

Section Loops.

Variable env : Env.

Lemma partitionJobs_run (entries : list (string * JobRecord))
    (ja jd : list string) (s : State) :
  partitionJobs env entries ja jd s =
  (Ok (ja ++ to_audit entries, jd ++ to_delete env (ticks s) entries),
   set_ticks (ticks s + length entries)%nat s).
Proof.
  revert ja jd s. induction entries as [|[k r] rest IH]; intros ja jd s.
  - simpl. munfold. rewrite !app_nil_r, Nat.add_0_r. by destruct s.
  - simpl. unfold mbind, M_bind, bind, newDate at 1. rewrite IH. simpl.
    rewrite set_ticks_set_ticks. unfold to_audit, expired.
    rewrite filter_cons. simpl.
    f_equal; [|f_equal; lia].
    f_equal; f_equal.
    + destruct (audited r); simpl; rewrite <- ?app_assoc; done.
    + destruct (_ >? _); simpl; rewrite <- ?app_assoc; done.
Qed.

Lemma elem_of_to_audit (L : Ledger) (k : string) :
  k ∈ to_audit (map_to_list L) <->
  exists r, L !! k = Some r /\ audited r = false.
Proof.
  unfold to_audit. rewrite list_elem_of_fmap. split.
  - intros [[k' r] [-> Hin]]. apply list_elem_of_filter in Hin as [Ha Hin].
    apply elem_of_map_to_list in Hin. by exists r.
  - intros (r & Hk & Ha). exists (k, r). split; [done|].
    apply list_elem_of_filter. split; [done|].
    by apply elem_of_map_to_list.
Qed.

Lemma elem_of_to_delete_const (now : Z) (t : nat)
    (entries : list (string * JobRecord)) (k : string) :
  (forall n, clock env n = now) ->
  k ∈ to_delete env t entries <->
  exists r, (k, r) ∈ entries /\ expired now r = true.
Proof.
  intros Hclock. revert t. induction entries as [|[k' r'] rest IH]; intros t.
  - simpl. split; [by intros ?%elem_of_nil|].
    by intros (r & ?%elem_of_nil & _).
  - simpl. rewrite elem_of_app, IH, Hclock. split.
    + intros [Hin|(r & Hin & He)].
      * destruct (expired now r') eqn:He; [|by apply elem_of_nil in Hin].
        apply list_elem_of_singleton in Hin as ->.
        exists r'. split; [left|done].
      * exists r. split; [by right|done].
    + intros (r & Hin & He). apply elem_of_cons in Hin as [Heq|Hin].
      * inversion Heq; subst. left. rewrite He. left.
      * right. by exists r.
Qed.


(** *** The order of completion *)

Lemma insert_by_perm {A} (lat : A -> nat) (x : A) (l : list A) :
  insert_by lat x l ≡ₚ x :: l.
Proof.
  induction l as [|y ys IH]; simpl; [done|].
  destruct (_ <=? _)%nat; [done|]. rewrite IH. apply Permutation_swap.
Qed.

Lemma completion_order_perm {A} (lat : A -> nat) (l : list A) :
  completion_order lat l ≡ₚ l.
Proof.
  unfold completion_order. induction l as [|x l IH]; simpl; [done|].
  by rewrite insert_by_perm, IH.
Qed.

Lemma insert_by_fmap {A B} (g : A -> B) (lat : A -> nat) (lat' : B -> nat)
    (x : A) (l : list A) :
  (forall y, lat' (g y) = lat y) ->
  insert_by lat' (g x) (g <$> l) = g <$> insert_by lat x l.
Proof.
  intros H. induction l as [|y ys IH]; [done|].
  rewrite fmap_cons. cbn [insert_by]. rewrite !H.
  destruct (_ <=? _)%nat; [by rewrite !fmap_cons|].
  by rewrite IH, fmap_cons.
Qed.

Lemma completion_order_fmap {A B} (g : A -> B) (lat : A -> nat)
    (lat' : B -> nat) (l : list A) :
  (forall y, lat' (g y) = lat y) ->
  completion_order lat' (g <$> l) = g <$> completion_order lat l.
Proof.
  intros H. unfold completion_order.
  induction l as [|x l IH]; [done|].
  rewrite fmap_cons. cbn [foldr].
  by rewrite IH, (insert_by_fmap g lat lat').
Qed.

(** The outcomes of the calls [f k], in the order of completion. *)
Lemma completed_fmap {B} (lat : string -> nat) (f : string -> Err + B)
    (ks : list string) :
  completed lat ks (map f ks) = map f (completion_order lat ks).
Proof.
  unfold completed.
  assert (Hzip : zip ks (map f ks) = (fun k => (k, f k)) <$> ks).
  { induction ks as [|k ks IH]; simpl; [done|]. by rewrite IH. }
  rewrite Hzip.
  rewrite (completion_order_fmap (fun k => (k, f k)) lat) by done.
  by rewrite <- list_fmap_compose.
Qed.

(** Calls that all take the same time complete in the order they were
    issued. *)
Lemma completion_order_const {A} (lat : A -> nat) (l : list A) (c : nat) :
  (forall x, lat x = c) -> completion_order lat l = l.
Proof.
  intros H. unfold completion_order.
  induction l as [|x l IH]; simpl; [done|]. rewrite IH.
  destruct l as [|y l]; simpl; [done|]. by rewrite !H, Nat.leb_refl.
Qed.

(** *** Marking *)


Lemma markAudited_run (zs : list (string * (Err + unit))) (L : Ledger)
    (s : State) :
  markAudited zs L s =
  (Ok (mark_pure zs L),
   add_events (replicate (length zs) (ELog Debug "got status for job")) s).
Proof.
  revert L s. induction zs as [|[k op] zs IH]; intros L s; simpl.
  - munfold. by rewrite add_events_nil.
  - munfold. simpl. rewrite IH. unfold mark_pure. simpl. f_equal.
    state_eq s.
Qed.

Lemma if_bool_ext {A} (P Q : Prop) `{Decision P, Decision Q} (x y : A) :
  (Q <-> P) ->
  (if bool_decide P then x else y) = (if bool_decide Q then x else y).
Proof. intros H1. by rewrite (bool_decide_ext Q P). Qed.

Lemma set_audited_idemp (o : option JobRecord) :
  set_audited <$> (set_audited <$> o) = set_audited <$> o.
Proof. by destruct o. Qed.

Lemma mark_pure_lookup (zs : list (string * (Err + unit))) (L : Ledger)
    (k : string) :
  mark_pure zs L !! k =
  if bool_decide (k ∈ ok_keys zs) then set_audited <$> L !! k else L !! k.
Proof.
  revert L. induction zs as [|[k' op] zs IH]; intros L.
  - reflexivity.
  - unfold mark_pure in *. simpl. rewrite IH. unfold ok_keys, mark_step.
    rewrite filter_cons. simpl. destruct (status_ok op) eqn:Hop; simpl.
    + rewrite lookup_alter.
      destruct (decide (k' = k)) as [->|Hne].
      * rewrite (bool_decide_eq_true_2 (k ∈ k :: _)) by left.
        rewrite set_audited_idemp. by destruct (bool_decide _).
      * apply if_bool_ext. rewrite elem_of_cons. intuition congruence.
    + done.
Qed.

(** *** Deleting *)

Lemma deleteAudited_lookup (ks : list string) (L : Ledger) (k : string) :
  deleteAudited ks L !! k =
  match L !! k with
  | Some r => if audited r && bool_decide (k ∈ ks) then None else Some r
  | None => None
  end.
Proof.
  revert L. induction ks as [|k' ks IH]; intros L; simpl.
  - destruct (L !! k) as [r|]; [|done]. by rewrite andb_false_r.
  - rewrite IH. destruct (decide (k = k')) as [->|Hne].
    + rewrite (bool_decide_eq_true_2 (k' ∈ k' :: ks)) by left.
      destruct (L !! k') as [r|] eqn:Hk; simpl.
      * destruct (audited r) eqn:Ha; simpl.
        -- by rewrite lookup_delete_eq.
        -- by rewrite Hk, Ha.
      * by rewrite Hk.
    + assert (Hl : (match L !! k' with
                    | Some r => if audited r then delete k' L else L
                    | None => L
                    end) !! k = L !! k).
      { destruct (L !! k') as [r'|]; [|done].
        destruct (audited r'); [|done]. by rewrite lookup_delete_ne. }
      rewrite Hl. destruct (L !! k) as [r|]; [|done].
      destruct (audited r); simpl; [|done].
      apply if_bool_ext. rewrite elem_of_cons. intuition congruence.
Qed.

End Loops.

(** ** The audit of previous jobs *)

Section Reconcile.

Variable env : Env.

Lemma elem_of_arrival (ks : list string) (k : string) :
  k ∈ arrival env ks <-> k ∈ ks.
Proof. unfold arrival. by rewrite completion_order_perm. Qed.

Lemma all_fetched_arrival (ks : list string) :
  all_fetched env (arrival env ks) <-> all_fetched env ks.
Proof.
  unfold all_fetched. split; intros H k Hk; apply H; by apply elem_of_arrival.
Qed.

Lemma auditFetched_run (ks : list string) (js : list RemoteJob) (L : Ledger)
    (s : State) :
  auditFetched env ks js L s =
  (Ok (mark_pure (zip ks (map (audit_op env) js)) L),
   add_events (concat (map (audit_events env) js)
               ++ debug_logs (length (zip ks (map (audit_op env) js)))) s).
Proof.
  unfold auditFetched. unfold mbind, M_bind, bind.
  rewrite forEachParallel_auditJob, markAudited_run, add_events_app.
  reflexivity.
Qed.

(** What [auditParsed] does, loop by loop. *)
Lemma auditParsed_run (L : Ledger) (s : State) :
  auditParsed env L s =
  let ja := to_audit (map_to_list L) in
  let jd := to_delete env (ticks s) (map_to_list L) in
  let s1 := set_ticks (ticks s + length (map_to_list L))%nat
              (set_previousJobs (Some L) s) in
  match ja with
  | [] => (Ok tt, add_events [ELog Info "No jobs to audit."] s1)
  | _ :: _ =>
      let arrived := map (getJob env) (arrival env ja) in
      let s2 := add_events (map EGetJob ja) s1 in
      match multiError (failures arrived) with
      | Some err2 => (Fail err2, s2)
      | None =>
          let js := successes arrived in
          let zs := zip ja (map (audit_op env) js) in
          (Ok tt,
           set_previousJobs (Some (deleteAudited jd (mark_pure zs L)))
             (add_events (concat (map (audit_events env) js)
                          ++ debug_logs (length zs)) s2))
      end
  end.
Proof.
  unfold auditParsed, setPreviousJobs. unfold mbind, M_bind, bind, modify.
  rewrite partitionJobs_run. cbn [fst snd app].
  destruct (to_audit (map_to_list L)) as [|k ks] eqn:Hja; [reflexivity|].
  rewrite forEachParallel_getJobStatus. cbn [fst snd].
  rewrite completed_fmap. fold (arrival env (k :: ks)).
  destruct (multiError _) as [err2|]; [reflexivity|].
  rewrite auditFetched_run. reflexivity.
Qed.

(** The first fan-out fails as soon as one fetch does. *)
Lemma fetch_fails (ks : list string) (k : string) (e : Err) :
  k ∈ ks -> getJob env k = inl e ->
  exists err, multiError (failures (map (getJob env) ks)) = Some err.
Proof.
  intros Hin Hk. induction ks as [|k' ks IH]; [by apply elem_of_nil in Hin|].
  unfold failures in *. simpl.
  destruct (getJob env k') as [e'|j'] eqn:Hk'; simpl; [by eexists|].
  apply elem_of_cons in Hin as [->|Hin]; [congruence|]. by apply IH.
Qed.

Lemma fetch_succeeds (ks : list string) :
  all_fetched env ks ->
  multiError (failures (map (getJob env) ks)) = None.
Proof.
  intros Hall. induction ks as [|k ks IH]; [done|].
  unfold failures in *. simpl.
  destruct (Hall k) as [j Hj]; [left|]. rewrite Hj. simpl.
  apply IH. intros k' Hk'. apply Hall. by right.
Qed.

Lemma fetch_outcome (ks : list string) :
  (multiError (failures (map (getJob env) ks)) = None /\
   all_fetched env ks) \/
  (exists err k e, multiError (failures (map (getJob env) ks)) = Some err /\
                   k ∈ ks /\ getJob env k = inl e).
Proof.
  induction ks as [|k ks IH].
  - left. split; [done|]. by intros k ?%elem_of_nil.
  - destruct (getJob env k) as [e|j] eqn:Hk.
    + right. destruct (fetch_fails (k :: ks) k e) as [err Herr];
        [left|done|].
      exists err, k, e. split; [done|]. split; [left|done].
    + destruct IH as [[Hnone Hall]|(err & k' & e & Herr & Hin & Hk')].
      * left. split.
        -- unfold failures in *. simpl. by rewrite Hk.
        -- intros k' [->|Hin]%elem_of_cons; [by exists j|by apply Hall].
      * right. exists err, k', e. split; [|split; [by right|done]].
        unfold failures in *. simpl. by rewrite Hk.
Qed.






(** The three ways through [auditParsed]. *)
Lemma auditParsed_cases (L : Ledger) (s : State) :
  let ja := to_audit (map_to_list L) in
  let jd := to_delete env (ticks s) (map_to_list L) in
  let zs := audit_ops env ja in
  (ja = [] /\ fst (auditParsed env L s) = Ok tt /\
   previousJobs (snd (auditParsed env L s)) = Some L) \/
  ((exists k e, k ∈ ja /\ getJob env k = inl e) /\
   (exists err, fst (auditParsed env L s) = Fail err) /\
   previousJobs (snd (auditParsed env L s)) = Some L) \/
  (ja <> [] /\ all_fetched env ja /\
   fst (auditParsed env L s) = Ok tt /\
   previousJobs (snd (auditParsed env L s)) =
     Some (deleteAudited jd (mark_pure zs L))).
Proof.
  intros ja jd zs. rewrite auditParsed_run. fold ja jd. cbv zeta.
  destruct ja as [|k0 ks] eqn:Hja; [left; by destruct s|].
  right.
  destruct (fetch_outcome (arrival env (k0 :: ks)))
    as [[Hnone Hall]|(err & k & e & Herr & Hin & Hk)].
  - right. rewrite Hnone. split; [done|].
    split; [by apply (proj1 (all_fetched_arrival _))|].
    split; [done|]. by destruct s.
  - left. rewrite Herr. apply (proj1 (elem_of_arrival _ _)) in Hin.
    split; [by exists k, e|]. split; [by exists err|].
    by destruct s.
Qed.

(** If the fetch of one un-audited job fails, the audit fails and the
    jobs object is left as it was parsed. *)
Lemma fetch_failure_keeps_ledger (L : Ledger) (s : State) (k : string)
    (r : JobRecord) (e : Err) :
  L !! k = Some r -> audited r = false -> getJob env k = inl e ->
  (exists err, fst (auditParsed env L s) = Fail err) /\
  previousJobs (snd (auditParsed env L s)) = Some L.
Proof.
  intros Hk Ha He.
  destruct (auditParsed_cases L s)
    as [(Hnil & _)|[(_ & Hfail & Hl)|(_ & Hall & _)]].
  - assert (Hin : k ∈ to_audit (map_to_list L))
      by (apply elem_of_to_audit; by exists r).
    rewrite Hnil in Hin. by apply elem_of_nil in Hin.
  - done.
  - destruct (Hall k) as [j Hj]; [|congruence].
    apply elem_of_to_audit. by exists r.
Qed.


(** An audit with nothing to audit returns before the deleting loop:
    the jobs object stays as it is. *)
Lemma nothing_to_audit (L : Ledger) (s : State) :
  (forall k r, L !! k = Some r -> audited r = true) ->
  fst (auditParsed env L s) = Ok tt /\
  previousJobs (snd (auditParsed env L s)) = Some L.
Proof.
  intros Hall.
  destruct (auditParsed_cases L s)
    as [(_ & Hok & Hl)|[((k & e & Hin & _) & _)|(Hne & _)]]; [done| |].
  - apply elem_of_to_audit in Hin as (r & Hr & Ha).
    rewrite (Hall k r Hr) in Ha. discriminate Ha.
  - destruct (to_audit (map_to_list L)) as [|k ks] eqn:Hja; [done|].
    assert (Hin : k ∈ to_audit (map_to_list L)) by (rewrite Hja; left).
    apply elem_of_to_audit in Hin as (r & Hr & Ha).
    rewrite (Hall k r Hr) in Ha. discriminate Ha.
Qed.


End Reconcile.

(** ** Auditing one job, checking for running jobs *)

Section Stages.

Variable env : Env.
Variable opts : Opts.


Lemma newDate_run (s : State) :
  newDate env s = (Ok (clock env (ticks s)), set_ticks (S (ticks s)) s).
Proof. reflexivity. Qed.

End Stages.

(** ** What the stages leave alone *)

Lemma frame_refl (s : State) : frame s s.
Proof. by repeat split. Qed.

Lemma frame_trans (s1 s2 s3 : State) :
  frame s1 s2 -> frame s2 s3 -> frame s1 s3.
Proof.
  unfold frame. intros (?&?&?&?) (?&?&?&?).
  repeat split; congruence.
Qed.

Section Quiet.

Variable P : Prop.

Lemma quiet_ret {A} (a : A) : quiet P (ret a).
Proof. intros s. split; [done|apply frame_refl]. Qed.

Lemma quiet_fail {A} (e : Err) : quiet P (@fail A e).
Proof. intros s. split; [done|apply frame_refl]. Qed.

Lemma quiet_emit (ev : Event) : quiet P (emit ev).
Proof. intros s. split; [done|]. by destruct s. Qed.

Lemma quiet_log (lvl : Level) (msg : string) : quiet P (log lvl msg).
Proof. apply quiet_emit. Qed.

Lemma quiet_get : quiet P get.
Proof. intros s. split; [done|apply frame_refl]. Qed.

Lemma quiet_callback (o : option Err) : quiet P (callback o).
Proof. destruct o; [apply quiet_fail|apply quiet_ret]. Qed.

Lemma quiet_newDate (env : Env) : quiet P (newDate env).
Proof. intros s. split; [done|]. by destruct s. Qed.

Lemma quiet_bind {A B} (c : M A) (k : A -> M B) :
  quiet P c -> (forall a, quiet P (k a)) -> quiet P (c ≫= k).
Proof.
  intros Hc Hk s. unfold mbind, M_bind, bind.
  destruct (Hc s) as [Hs Hf]. destruct (c s) as [[a|e|] s1]; simpl in *.
  - destruct (Hk a s1) as [Hs' Hf']. split; [done|].
    by apply (frame_trans _ s1).
  - done.
  - split; [|done]. intros HP. by destruct (Hs HP).
Qed.

Lemma quiet_attempt {A} (c : M A) : quiet P c -> quiet P (attempt c).
Proof.
  intros Hc s. unfold attempt. destruct (Hc s) as [Hs Hf].
  destruct (c s) as [[a|e|] s1]; simpl in *; (split; [|done]); try done.
  intros HP. by destruct (Hs HP).
Qed.

Lemma quiet_pipeline (funcs : list (M unit)) :
  Forall (quiet P) funcs -> quiet P (pipeline funcs).
Proof.
  induction 1 as [|f fs Hf _ IH]; simpl.
  - apply quiet_ret.
  - apply quiet_bind; [done|]. by intros _.
Qed.

End Quiet.

Section QuietStages.

Variable env : Env.
Variable opts : Opts.
Variable P : Prop.

Lemma quiet_getJobStatus (id : string) : quiet P (getJobStatus env id).
Proof.
  unfold getJobStatus. apply quiet_bind; [apply quiet_emit|]. intros _.
  destruct (getJob env id); [apply quiet_fail|apply quiet_ret].
Qed.

Lemma quiet_getNextJob (jobs : list string) (acc : list RemoteJob) :
  quiet P (getNextJob env jobs acc).
Proof.
  revert acc. induction jobs as [|jid rest IH]; intros acc; simpl.
  - apply quiet_ret.
  - destruct (decide (jid = "")); [apply quiet_ret|].
    apply quiet_bind; [apply quiet_getJobStatus|]. intros j. apply IH.
Qed.

Lemma quiet_checkRunningJobs : quiet P (checkRunningJobs env opts).
Proof.
  unfold checkRunningJobs. apply quiet_bind.
  - unfold findRunningJobs. apply quiet_bind; [apply quiet_emit|].
    intros _. destruct (listJobs env (jobName opts)); [apply quiet_fail|].
    apply quiet_bind; [apply quiet_getNextJob|]. intros jobObjs.
    unfold checkResults. destruct (runningJobs jobObjs) as [|j [|j' rest]].
    + apply quiet_ret.
    + apply quiet_ret.
    + apply quiet_bind; [apply quiet_log|]. intros _. apply quiet_fail.
  - intros [j|]; [|apply quiet_log].
    destruct (negb (job_inputDone j)).
    + apply quiet_bind; [apply quiet_emit|]. intros _.
      apply quiet_bind; [apply quiet_log|]. intros _. apply quiet_callback.
    + apply quiet_bind; [apply quiet_newDate|]. intros now.
      apply quiet_bind.
      * intros s. split; [done|]. by destruct s.
      * intros _. apply quiet_bind; [apply quiet_log|]. intros _.
        apply quiet_fail.
Qed.

Lemma quiet_setupDirectories : quiet P (setupDirectories env opts).
Proof.
  unfold setupDirectories. apply quiet_bind; [apply quiet_get|]. intros s0.
  apply quiet_bind.
  { intros s. split; [done|]. by destruct s. }
  intros _. apply quiet_bind; [apply quiet_log|]. intros _.
  apply quiet_pipeline. apply Forall_forall. intros f Hf.
  apply list_elem_of_fmap in Hf as (d & -> & _).
  unfold mkdir. apply quiet_bind; [apply quiet_emit|]. intros _.
  apply quiet_callback.
Qed.

Lemma quiet_invokeGetJobObjects : quiet P (invokeGetJobObjects env).
Proof.
  unfold invokeGetJobObjects. apply quiet_bind; [apply quiet_emit|].
  intros _. destruct (getJobObjects env) as [e|[[|o objs]|]].
  - apply quiet_fail.
  - apply quiet_bind; [apply quiet_log|]. intros _. apply quiet_fail.
  - intros s. split; [done|]. by destruct s.
  - apply quiet_bind; [apply quiet_log|]. intros _. apply quiet_fail.
Qed.

Lemma quiet_invokeGetJobDefinition : quiet P (invokeGetJobDefinition env opts).
Proof.
  unfold invokeGetJobDefinition. apply quiet_bind; [apply quiet_emit|].
  intros _. destruct (getJobDefinition env) as [e|j]; [apply quiet_fail|].
  assert (Hset : forall d, quiet P (modify (set_job (Some d)))).
  { intros d s. split; [done|]. by destruct s. }
  destruct (truthy (def_name j)) as [n|]; [|apply Hset].
  destruct (decide (n = jobName opts)); [apply Hset|apply quiet_fail].
Qed.

Lemma quiet_put (path : string) (d : Doc) : quiet P (put env path d).
Proof.
  unfold put. apply quiet_bind; [apply quiet_emit|]. intros _.
  destruct (put_fault env path); [apply quiet_fail|].
  intros s. split; [done|]. by destruct s.
Qed.

Lemma quiet_setupAssetObject :
  (P -> asset_ok opts) -> quiet P (setupAssetObject env opts).
Proof.
  intros Hok. unfold setupAssetObject.
  destruct (assetFile opts) as [file|] eqn:Hfile; [|apply quiet_ret].
  destruct (assetObject opts) as [p|] eqn:Hobj.
  - apply quiet_bind; [apply quiet_log|]. intros _.
    apply quiet_bind; [apply quiet_emit|]. intros _.
    destruct (stat env file) as [e|[[] sz]].
    + apply quiet_fail.
    + apply quiet_put.
    + apply quiet_fail.
  - intros s. split; [|apply frame_refl].
    intros HP. destruct (Hok HP) as [?|[? ?]]; congruence.
Qed.

Lemma quiet_middle_stages :
  (P -> asset_ok opts) -> quiet P (pipeline (middle_stages env opts)).
Proof.
  intros Hok. apply quiet_pipeline. unfold middle_stages.
  repeat apply Forall_cons_2; [| | | | |apply Forall_nil_2].
  - apply quiet_checkRunningJobs.
  - apply quiet_setupDirectories.
  - by apply quiet_setupAssetObject.
  - apply quiet_invokeGetJobObjects.
  - apply quiet_invokeGetJobDefinition.
Qed.

Lemma stages_split :
  stages env opts =
  [stopIfDisabled opts; auditPreviousJobs env opts] ++ middle_stages env opts
  ++ [createMarlinJob env opts].
Proof. reflexivity. Qed.

(** After the last two middle stages the objects and the job are set. *)
Lemma invokeGetJobObjects_ok (s s' : State) :
  invokeGetJobObjects env s = (Ok tt, s') -> is_Some (objects s').
Proof.
  unfold invokeGetJobObjects. munfold. simpl.
  destruct (getJobObjects env) as [e|[[|o objs]|]]; try done.
  intros [= <-]. by eexists.
Qed.

Lemma invokeGetJobDefinition_ok (s s' : State) :
  invokeGetJobDefinition env opts s = (Ok tt, s') ->
  is_Some (job s') /\ objects s' = objects s.
Proof.
  unfold invokeGetJobDefinition. munfold. simpl.
  destruct (getJobDefinition env) as [e|j]; [done|].
  destruct (truthy (def_name j)) as [n|].
  - destruct (decide (n = jobName opts)); [|done].
    intros [= <-]. split; [by eexists|]. by destruct s.
  - intros [= <-]. split; [by eexists|]. by destruct s.
Qed.

Lemma middle_stages_ok (s s' : State) :
  pipeline (middle_stages env opts) s = (Ok tt, s') ->
  is_Some (objects s') /\ is_Some (job s').
Proof.
  change (middle_stages env opts) with
    ([checkRunningJobs env opts; setupDirectories env opts;
      setupAssetObject env opts]
     ++ [invokeGetJobObjects env; invokeGetJobDefinition env opts]).
  rewrite pipeline_app.
  destruct (pipeline _ s) as [[[]|e|] s1]; try done.
  simpl. unfold mbind, M_bind, bind.
  destruct (invokeGetJobObjects env s1) as [[[]|e|] s2] eqn:H6; try done.
  destruct (invokeGetJobDefinition env opts s2) as [[[]|e|] s3] eqn:H7;
    try done.
  unfold ret. intros [= <-].
  apply invokeGetJobObjects_ok in H6.
  apply invokeGetJobDefinition_ok in H7 as [Hj Ho].
  split; [by rewrite Ho|done].
Qed.

End QuietStages.

(** ** The run *)

Section Run.

Variable env : Env.
Variable opts : Opts.

Lemma run_unfold (s : State) :
  run env opts s =
  match pipeline (stages env opts) (started env s) with
  | (Ok _, s1) => pipelineDone env opts None s1
  | (Fail e, s1) => pipelineDone env opts (Some e) s1
  | (Throw, s1) => (Throw, s1)
  end.
Proof.
  unfold run. unfold mbind, M_bind, bind, attempt, modify, newDate.
  fold (started env s).
  by destruct (pipeline (stages env opts) (started env s)) as [[[]|e|] s1].
Qed.

Lemma stopIfDisabled_enabled (s : State) :
  enabled opts = true ->
  stopIfDisabled opts s =
  (Ok tt,
   add_events (if forceRun opts then [ELog Info "Forcing job run"] else []) s).
Proof.
  unfold enabled, stopIfDisabled. destruct (forceRun opts); [done|]. simpl.
  intros [H1 H2]%andb_true_iff.
  apply negb_true_iff, bool_decide_eq_false in H1.
  apply negb_true_iff, bool_decide_eq_false in H2.
  rewrite !decide_False by done. unfold ret. by rewrite add_events_nil.
Qed.

Lemma stopIfDisabled_disabled (s : State) :
  enabled opts = false ->
  exists msg, stopIfDisabled opts s = (Fail (disabledError msg), s).
Proof.
  unfold enabled, stopIfDisabled. destruct (forceRun opts); [done|]. simpl.
  destruct (decide (disableAllJobs opts = Some true)); [by eexists|].
  destruct (decide (jobEnabled opts = Some false)); [by eexists|].
  by rewrite !bool_decide_eq_false_2.
Qed.

Lemma auditParsed_outcome (L : Ledger) (s : State) :
  fst (auditParsed env L s) <> Throw /\
  is_Some (previousJobs (snd (auditParsed env L s))) /\
  audit (snd (auditParsed env L s)) = audit s /\
  store (snd (auditParsed env L s)) = store s.
Proof.
  rewrite auditParsed_run. cbv zeta.
  destruct (to_audit (map_to_list L)); [by destruct s|].
  destruct (multiError _); by destruct s.
Qed.

Lemma getObject_run (path : string) (s : State) :
  getObject env path s =
  (match getObject_fault env path with
   | Some e => Fail e
   | None =>
       match store s !! path with
       | Some d => Ok d
       | None => Fail resourceNotFound
       end
   end, add_events [EGetObject path] s).
Proof.
  unfold getObject. munfold. simpl.
  destruct (getObject_fault env path); [done|].
  rewrite store_set_trace. by destruct (store s !! path).
Qed.

Lemma auditPreviousJobs_outcome (s : State) :
  fst (auditPreviousJobs env opts s) <> Throw /\
  is_Some (previousJobs (snd (auditPreviousJobs env opts s))) /\
  audit (snd (auditPreviousJobs env opts s)) = audit s /\
  store (snd (auditPreviousJobs env opts s)) = store s.
Proof.
  unfold auditPreviousJobs, setPreviousJobs.
  unfold mbind, M_bind, bind, attempt, log, emit, modify.
  rewrite getObject_run.
  set (s1 := add_events _ _).
  assert (Hs1 : is_Some (previousJobs s1) /\ audit s1 = audit s
                /\ store s1 = store s) by (by destruct s).
  destruct Hs1 as (Hp & Ha & Hst).
  assert (Hfail : forall e : Err,
    fst (gotObject env (inl e) s1) <> Throw /\
    is_Some (previousJobs (snd (gotObject env (inl e) s1))) /\
    audit (snd (gotObject env (inl e) s1)) = audit s /\
    store (snd (gotObject env (inl e) s1)) = store s).
  { intros e. unfold gotObject. destruct (decide _); [|done].
    subst s1. by destruct s. }
  destruct (getObject_fault env (previousJobsObject opts)) as [e|];
    [apply Hfail|].
  rewrite store_set_previousJobs, store_set_trace.
  destruct (store s !! previousJobsObject opts) as [[L|raw]|];
    [| |apply Hfail].
  - simpl. destruct (auditParsed_outcome L s1) as (H1 & H2 & H3 & H4).
    repeat split; congruence.
  - done.
Qed.




(** *** The end of the run *)

Lemma writeAuditRecord_run (s : State) :
  exists s2,
    writeAuditRecord env opts s = (Ok tt, s2) /\
    trace s2 = trace s ++ audit_record opts s2 /\
    store s2 = store s /\
    previousJobs s2 = previousJobs s /\
    startedJob (audit s2) = startedJob (audit s) /\
    numberOfObjects (audit s2) = numberOfObjects (audit s) /\
    cronFailed (audit s2) = cronFailed (audit s).
Proof.
  unfold writeAuditRecord, audit_record. destruct s. munfold. simpl.
  destruct (noJobStart opts) as [[]|]; eexists; (split; [reflexivity|]);
    simpl; rewrite ?app_nil_r; done.
Qed.

Lemma recordAndReport_run (err : option Err) (s : State) (L : Ledger) :
  previousJobs s = Some L ->
  exists s2,
    recordAndReport env opts err s = (Ok err, s2) /\
    trace s2 = trace s ++ fatal_log err
               ++ [EPut (previousJobsObject opts) (JSON_stringify L)]
               ++ save_log env opts ++ audit_record opts s2 /\
    store s2 = stored env opts L (store s) /\
    previousJobs s2 = Some L /\
    startedJob (audit s2) = startedJob (audit s) /\
    numberOfObjects (audit s2) = numberOfObjects (audit s) /\
    cronFailed (audit s2) = if fatal err then cronFailed (audit s) else 0.
Proof.
  intros HL. unfold recordAndReport, recordJobs, put.
  unfold mbind, M_bind, bind, attempt, modify, log, emit, get, fail, ret.
  unfold fatal_log, fatal, save_log, stored.
  set (w := writeAuditRecord env opts).
  destruct s as [st tk pj dirs objs jb jid au tr]. simpl in HL. subst pj.
  destruct err as [[nm msg code [snf|] cause]|];
    simpl;
    destruct (put_fault env (previousJobsObject opts)) as [e2|]; simpl;
    try destruct (ignoredPutError e2); simpl;
    match goal with
    | |- context [w ?s1] =>
        destruct (writeAuditRecord_run s1)
          as (s2 & Hw & Ht & Hs & Hp & H1 & H2 & H3);
        subst w; rewrite Hw; exists s2; (split; [reflexivity|]);
        rewrite Ht, Hs, Hp, H1, H2, H3; simpl; rewrite <- ?app_assoc;
        done
    end.
Qed.

Lemma pipelineDone_disabled (e : Err) (s : State) :
  hasCauseWithName e jobDisabled = true ->
  exists s2,
    pipelineDone env opts (Some e) s = (Ok None, s2) /\
    trace s2 = trace s ++ [ELog Info (err_message e)] ++ audit_record opts s2 /\
    store s2 = store s /\
    previousJobs s2 = previousJobs s /\
    cronFailed (audit s2) = cronFailed (audit s).
Proof.
  intros Hd. unfold pipelineDone. rewrite Hd.
  unfold mbind, M_bind, bind, log, emit, modify, ret.
  destruct (writeAuditRecord_run
              (set_trace (trace s ++ [ELog Info (err_message e)]) s))
    as (s2 & Hw & Ht & Hs & Hp & H1 & H2 & H3).
  rewrite Hw. exists s2. split; [reflexivity|].
  rewrite Ht, Hs, Hp, H3. destruct s; simpl. by rewrite <- app_assoc.
Qed.

Lemma pipelineDone_recorded (err : option Err) (s : State) :
  match err with
  | Some e => hasCauseWithName e jobDisabled = false
  | None => True
  end ->
  pipelineDone env opts err s = recordAndReport env opts err s.
Proof.
  unfold pipelineDone. destruct err as [e|]; [|done]. by intros ->.
Qed.

(** *** The pipeline *)

Lemma createMarlinJob_safe (s : State) :
  is_Some (job s) -> is_Some (previousJobs s) -> is_Some (objects s) ->
  fst (createMarlinJob env opts s) <> Throw /\
  is_Some (previousJobs (snd (createMarlinJob env opts s))).
Proof.
  intros [j Hj] [L HL] [objs Ho]. unfold createMarlinJob.
  unfold mbind, M_bind, bind, get, log, emit, modify, newDate,
    setPreviousJobs.
  rewrite Hj, HL, Ho. destruct s. simpl in *. subst.
  destruct (noJobStart opts) as [[]|]; simpl; try done;
    (destruct (createJob env j) as [e|jid]; simpl; [done|]);
    destruct (addJobKey env jid objs); simpl; done.
Qed.

Lemma pipeline_stages_unfold (s : State) :
  pipeline (stages env opts) s =
  match stopIfDisabled opts s with
  | (Ok _, sa) =>
      match auditPreviousJobs env opts sa with
      | (Ok _, sb) =>
          match pipeline (middle_stages env opts) sb with
          | (Ok _, sc) => createMarlinJob env opts sc
          | r => r
          end
      | r => r
      end
  | r => r
  end.
Proof.
  rewrite stages_split, pipeline_app.
  change (pipeline [stopIfDisabled opts; auditPreviousJobs env opts] s)
    with (bind (stopIfDisabled opts)
            (fun _ => bind (auditPreviousJobs env opts) (fun _ => ret tt)) s).
  unfold bind at 1.
  destruct (stopIfDisabled opts s) as [[[]|e|] sa]; try reflexivity.
  unfold bind at 1.
  destruct (auditPreviousJobs env opts sa) as [[[]|e|] sb]; try reflexivity.
  unfold ret. rewrite pipeline_app.
  destruct (pipeline (middle_stages env opts) sb) as [[[]|e|] sc];
    try reflexivity.
  change (pipeline [createMarlinJob env opts] sc)
    with (bind (createMarlinJob env opts) (fun _ => ret tt) sc).
  unfold bind.
  by destruct (createMarlinJob env opts sc) as [[[]|e|] sd].
Qed.

(** The pipeline throws only on the assertion of [setupAssetObject];
    unless it ends with a [JobDisabled] error, [opts.previousJobs] is
    set when it stops. *)
Lemma pipeline_stages_outcome (s : State) :
  (fst (pipeline (stages env opts) s) = Throw ->
   is_Some (assetFile opts) /\ assetObject opts = None) /\
  ((exists e, fst (pipeline (stages env opts) s) = Fail e /\
              hasCauseWithName e jobDisabled = true) \/
   is_Some (previousJobs (snd (pipeline (stages env opts) s)))).
Proof.
  assert (Hasset : ~ asset_ok opts ->
                   is_Some (assetFile opts) /\ assetObject opts = None).
  { unfold asset_ok. intros Hn.
    destruct (assetFile opts) as [f|]; [|by destruct Hn; left].
    destruct (assetObject opts) as [p|]; [|by split; [eexists|]].
    destruct Hn. right. by eexists. }
  rewrite pipeline_stages_unfold.
  destruct (enabled opts) eqn:Hen.
  - rewrite stopIfDisabled_enabled by done.
    set (sa := add_events _ s).
    destruct (auditPreviousJobs_outcome sa) as (Hnt & Hp & _).
    destruct (auditPreviousJobs env opts sa) as [[[]|e|] sb];
      cbn [fst snd] in *; [|by split; [|right]|done].
    destruct (quiet_middle_stages env opts (asset_ok opts) (fun H => H) sb)
      as [Hnt' (Hp' & _)].
    pose proof (middle_stages_ok env opts sb) as Hmid.
    destruct (pipeline (middle_stages env opts) sb) as [[[]|e|] sc];
      cbn [fst snd] in *.
    + destruct (Hmid sc eq_refl) as [Ho Hj].
      destruct (createMarlinJob_safe sc) as [Hnt8 Hp8];
        [done|congruence|done|].
      by split; [|right].
    + split; [done|right; congruence].
    + split; [|right; congruence]. intros _. apply Hasset.
      intros Hok. by apply Hnt'.
  - destruct (stopIfDisabled_disabled s Hen) as [msg ->]. cbn [fst snd].
    split; [done|]. left. by eexists.
Qed.

(** C1, as the code has it.  When the pipeline ends with a
    [JobDisabled] error, the jobs object is not written: the error is
    logged, the audit record of the run is logged, and the callback gets
    no error.  When it ends in any other way, success or failure alike,
    the jobs object is put, then the audit record of the run is logged,
    then the callback gets the error of the pipeline, whatever the put
    answers.  The audit record is logged once, and not at all when
    [noJobStart] is set.  The pipeline does not end when the assertion
    of [setupAssetObject] throws ([opts.assetFile] without
    [opts.assetObject]): then nothing more is done and the callback is
    not called. *)
Theorem run_finalization (s : State) :
  let r := fst (pipeline (stages env opts) (started env s)) in
  let s1 := snd (pipeline (stages env opts) (started env s)) in
  let cb := fst (run env opts s) in
  let s2 := snd (run env opts s) in
  let recorded (err : option Err) :=
    cb = Ok err /\
    exists L,
      previousJobs s1 = Some L /\
      trace s2 = trace s1 ++ fatal_log err
                 ++ [EPut (previousJobsObject opts) (JSON_stringify L)]
                 ++ save_log env opts ++ audit_record opts s2 /\
      store s2 = stored env opts L (store s1) in
  match r with
  | Ok _ => recorded None
  | Fail e =>
      if hasCauseWithName e jobDisabled then
        cb = Ok None /\
        trace s2 = trace s1 ++ [ELog Info (err_message e)] ++ audit_record opts s2
        /\ store s2 = store s1
      else recorded (Some e)
  | Throw =>
      (is_Some (assetFile opts) /\ assetObject opts = None) /\
      cb = Throw /\ s2 = s1
  end.
Proof.
  cbv zeta. rewrite run_unfold.
  destruct (pipeline_stages_outcome (started env s)) as [Hthrow Hcases].
  destruct (pipeline (stages env opts) (started env s)) as [[[]|e|] s1];
    cbn [fst snd] in *.
  - destruct Hcases as [(e & He & _)|[L HL]]; [done|].
    rewrite pipelineDone_recorded by done.
    destruct (recordAndReport_run None s1 L HL) as (s2 & -> & Ht & Hs & _).
    cbn [fst snd]. split; [done|]. by exists L.
  - destruct (hasCauseWithName e jobDisabled) eqn:Hd.
    + destruct (pipelineDone_disabled e s1 Hd) as (s2 & -> & Ht & Hs & _).
      done.
    + destruct Hcases as [(e' & [= <-] & He)|[L HL]]; [congruence|].
      rewrite pipelineDone_recorded by done.
      destruct (recordAndReport_run (Some e) s1 L HL)
        as (s2 & -> & Ht & Hs & _).
      cbn [fst snd]. split; [done|]. by exists L.
  - split; [by apply Hthrow|done].
Qed.

(** *** What the pipeline leaves of the audit of the run *)

Lemma quiet_stopIfDisabled (P : Prop) : quiet P (stopIfDisabled opts).
Proof.
  unfold stopIfDisabled. destruct (forceRun opts); [apply quiet_log|].
  destruct (decide _); [apply quiet_fail|].
  destruct (decide _); [apply quiet_fail|apply quiet_ret].
Qed.

Lemma createMarlinJob_audit (s : State) :
  cronFailed (audit (snd (createMarlinJob env opts s)))
  = cronFailed (audit s) /\
  (fst (createMarlinJob env opts s) <> Ok tt ->
   audit (snd (createMarlinJob env opts s)) = audit s).
Proof.
  unfold createMarlinJob.
  unfold mbind, M_bind, bind, get, log, emit, modify, newDate,
    setPreviousJobs.
  destruct s as [st tk pj dirs objs jb jid au tr]. simpl.
  destruct jb as [j|]; [|done]. simpl.
  destruct (noJobStart opts) as [[]|]; simpl; try done;
    (destruct (createJob env j) as [e|jid']; simpl; [done|]);
    (destruct pj as [L|]; simpl; [|done]);
    (destruct objs as [os|]; simpl; [|done]);
    destruct (addJobKey env jid' os); simpl; done.
Qed.

(** The first seven stages, when they all succeed. *)
Lemma prefix_ok (s0 s7 : State) :
  pipeline (take 7 (stages env opts)) s0 = (Ok tt, s7) ->
  is_Some (previousJobs s7) /\
  startedJob (audit s7) = startedJob (audit s0) /\
  numberOfObjects (audit s7) = numberOfObjects (audit s0) /\
  cronFailed (audit s7) = cronFailed (audit s0).
Proof.
  change (take 7 (stages env opts))
    with ([stopIfDisabled opts; auditPreviousJobs env opts]
          ++ middle_stages env opts).
  rewrite pipeline_app.
  change (pipeline [stopIfDisabled opts; auditPreviousJobs env opts] s0)
    with (bind (stopIfDisabled opts)
            (fun _ => bind (auditPreviousJobs env opts) (fun _ => ret tt))
            s0).
  unfold bind at 1.
  destruct (quiet_stopIfDisabled True s0) as [_ (_ & F1 & F2 & F3)].
  destruct (stopIfDisabled opts s0) as [[[]|e|] sa]; try done.
  unfold bind at 1.
  destruct (auditPreviousJobs_outcome sa) as (_ & Hp & Ha & _).
  destruct (auditPreviousJobs env opts sa) as [[[]|e|] sb]; try done.
  unfold ret.
  destruct (quiet_middle_stages env opts False (fun H => match H with end) sb)
    as [_ (G0 & G1 & G2 & G3)].
  intros Hmid. rewrite Hmid in *. cbn [fst snd] in *.
  repeat split; congruence.
Qed.

Lemma pipeline_stages_audit (s : State) :
  cronFailed (audit (snd (pipeline (stages env opts) s)))
  = cronFailed (audit s).
Proof.
  rewrite pipeline_stages_unfold.
  destruct (quiet_stopIfDisabled True s) as [_ (_ & _ & _ & F3)].
  destruct (stopIfDisabled opts s) as [[[]|e|] sa]; try done.
  destruct (auditPreviousJobs_outcome sa) as (_ & _ & Ha & _).
  destruct (auditPreviousJobs env opts sa) as [[[]|e|] sb];
    cbn [fst snd] in *; try congruence.
  destruct (quiet_middle_stages env opts False (fun H => match H with end) sb)
    as [_ (_ & _ & _ & G3)].
  destruct (pipeline (middle_stages env opts) sb) as [[[]|e|] sc];
    cbn [fst snd] in *; try congruence.
  destruct (createMarlinJob_audit sc) as [H8 _]. congruence.
Qed.

(** C3, as the code has it.  A failing stage ends the pipeline: no
    later stage is run.  When the pipeline ends with a [JobDisabled]
    error the callback gets no error.  Every other error of the pipeline
    is handed to the callback as it is, also an error marked
    [shouldNotFatal] ([No objects provided.], [Job Already running]);
    the mark only decides whether the run counts as failed: for a
    marked error [cronFailed] is 0 and the end of the run logs nothing
    as fatal, for an unmarked one [cronFailed] is 1 and the end of the
    run logs [Error.] as fatal before it puts the jobs object.  When
    the assertion of [setupAssetObject] throws, the pipeline does not
    end and the callback is not called. *)
Theorem run_error_propagation (s : State) :
  (forall pre f post s1 s' e,
      stages env opts = pre ++ f :: post ->
      pipeline pre (started env s) = (Ok tt, s1) ->
      f s1 = (Fail e, s') ->
      pipeline (stages env opts) (started env s) = (Fail e, s'))
  /\
  let s1 := snd (pipeline (stages env opts) (started env s)) in
  let s2 := snd (run env opts s) in
  let ended (logged : list Event) :=
    exists L,
      previousJobs s1 = Some L /\
      trace s2 = trace s1 ++ logged
                 ++ [EPut (previousJobsObject opts) (JSON_stringify L)]
                 ++ save_log env opts ++ audit_record opts s2 in
  match fst (pipeline (stages env opts) (started env s)) with
  | Ok _ =>
      fst (run env opts s) = Ok None /\
      cronFailed (audit s2) = 0 /\
      ended []
  | Fail e =>
      if hasCauseWithName e jobDisabled then
        fst (run env opts s) = Ok None /\
        trace s2 = trace s1 ++ [ELog Info (err_message e)]
                   ++ audit_record opts s2
      else
        fst (run env opts s) = Ok (Some e) /\
        match err_shouldNotFatal e with
        | Some _ => cronFailed (audit s2) = 0 /\ ended []
        | None => cronFailed (audit s2) = 1 /\ ended [ELog Fatal "Error."]
        end
  | Throw =>
      (is_Some (assetFile opts) /\ assetObject opts = None) /\
      fst (run env opts s) = Throw /\ s2 = s1
  end.
Proof.
  split.
  { intros pre f post s1 s' e -> Hpre Hf.
    by apply (pipeline_short_circuit pre post f _ s1). }
  cbv zeta. rewrite run_unfold.
  destruct (pipeline_stages_outcome (started env s)) as [Hthrow Hcases].
  pose proof (pipeline_stages_audit (started env s)) as Hcron.
  destruct (pipeline (stages env opts) (started env s)) as [[[]|e|] s1];
    cbn [fst snd] in *.
  - destruct Hcases as [(e & He & _)|[L HL]]; [done|].
    rewrite pipelineDone_recorded by done.
    destruct (recordAndReport_run None s1 L HL)
      as (s2 & -> & Ht & _ & _ & _ & _ & Hc).
    cbn [fst snd]. split; [done|]. split; [by rewrite Hc|].
    exists L. split; [done|]. exact Ht.
  - destruct (hasCauseWithName e jobDisabled) eqn:Hd.
    + by destruct (pipelineDone_disabled e s1 Hd) as (s2 & -> & Ht & _).
    + destruct Hcases as [(e' & [= <-] & He)|[L HL]]; [congruence|].
      rewrite pipelineDone_recorded by done.
      destruct (recordAndReport_run (Some e) s1 L HL)
        as (s2 & -> & Ht & _ & _ & _ & _ & Hc).
      cbn [fst snd]. split; [done|].
      unfold fatal_log, fatal in Ht. unfold fatal in Hc.
      destruct (err_shouldNotFatal e).
      * split; [done|]. exists L. by split.
      * split; [by rewrite Hc, Hcron|]. exists L. by split.
  - split; [by apply Hthrow|done].
Qed.

(** C2, as the code has it.  When the job is not switched off and the
    jobs object is there but does not parse, the run hands the parse
    error to the callback and counts as failed; no job is fetched,
    cancelled or created.  [opts.previousJobs] is the empty object set
    before the fetch, and the end of the run puts it: unless the put
    fails, the empty jobs object replaces the stored document. *)
Theorem corrupt_ledger_run (s : State) (raw : string) :
  enabled opts = true ->
  getObject_fault env (previousJobsObject opts) = None ->
  store s !! previousJobsObject opts = Some (Raw raw) ->
  let s2 := snd (run env opts s) in
  fst (run env opts s) = Ok (Some syntaxError) /\
  previousJobs s2 = Some ∅ /\
  cronFailed (audit s2) = 1 /\
  store s2 = stored env opts ∅ (store s) /\
  trace s2 =
    trace s
    ++ (if forceRun opts then [ELog Info "Forcing job run"] else [])
    ++ [ELog Info "Auditing previous jobs.";
        EGetObject (previousJobsObject opts);
        ELog Fatal "Error.";
        EPut (previousJobsObject opts) (JSON_stringify ∅)]
    ++ save_log env opts ++ audit_record opts s2.
Proof.
  intros Hen Hget Hraw. cbv zeta. rewrite run_unfold, pipeline_stages_unfold.
  rewrite stopIfDisabled_enabled by done.
  set (sa := add_events _ (started env s)).
  assert (Haudit : auditPreviousJobs env opts sa =
    (Fail syntaxError,
     add_events [EGetObject (previousJobsObject opts)]
       (set_previousJobs (Some ∅)
          (add_events [ELog Info "Auditing previous jobs."] sa)))).
  { unfold auditPreviousJobs, setPreviousJobs.
    unfold mbind, M_bind, bind, attempt, log, emit, modify.
    rewrite getObject_run, Hget, store_set_previousJobs, store_set_trace.
    subst sa. unfold add_events at 1. unfold started.
    rewrite store_set_trace. simpl store. rewrite Hraw. reflexivity. }
  rewrite Haudit. set (s1 := add_events _ _).
  rewrite pipelineDone_recorded by done.
  destruct (recordAndReport_run (Some syntaxError) s1 ∅)
    as (s2 & -> & Ht & Hs & Hp & _ & _ & Hc); [by destruct s|].
  cbn [fst snd]. split; [done|]. split; [done|].
  split; [rewrite Hc; by destruct s|].
  split; [rewrite Hs; by destruct s|].
  rewrite Ht. subst s1 sa. destruct s. simpl.
  rewrite <- !app_assoc. reflexivity.
Qed.

(** C10: the job is created and adding the objects to it fails.  The
    creation stage fails with that error after it has put the entry of
    the new job, un-audited and created now, into [opts.previousJobs].
    The run hands the error to the callback and counts as failed; the
    end of the run puts the jobs object with the new entry; [startedJob]
    is still 0 and [numberOfObjects] is not set. *)
Theorem attach_failure_keeps_entry (s s7 : State) (j : JobDef)
    (objs : list string) (jid : string) (e2 : Err) :
  pipeline (take 7 (stages env opts)) (started env s) = (Ok tt, s7) ->
  job s7 = Some j ->
  objects s7 = Some objs ->
  noJobStart opts <> Some true ->
  createJob env j = inr jid ->
  addJobKey env jid objs = Some e2 ->
  err_shouldNotFatal e2 = None ->
  hasCauseWithName e2 jobDisabled = false ->
  exists L,
    previousJobs s7 = Some L /\
    let L' := <[jid := mkJobRecord (clock env (ticks s7)) false]> L in
    let s8 := snd (createMarlinJob env opts s7) in
    let s9 := snd (run env opts s) in
    fst (createMarlinJob env opts s7) = Fail e2 /\
    previousJobs s8 = Some L' /\
    fst (run env opts s) = Ok (Some e2) /\
    EPut (previousJobsObject opts) (JSON_stringify L') ∈ trace s9 /\
    store s9 = stored env opts L' (store s8) /\
    previousJobs s9 = Some L' /\
    startedJob (audit s9) = 0 /\
    numberOfObjects (audit s9) = None /\
    cronFailed (audit s9) = 1.
Proof.
  intros Hpre Hj Ho Hstart Hcreate Hadd Hsnf Hname.
  destruct (prefix_ok _ _ Hpre) as ([L HL] & F1 & F2 & F3).
  exists L. split; [done|]. cbv zeta.
  assert (Hrun8 : exists s8,
    createMarlinJob env opts s7 = (Fail e2, s8) /\
    previousJobs s8
    = Some (<[jid := mkJobRecord (clock env (ticks s7)) false]> L) /\
    audit s8 = audit s7).
  { unfold createMarlinJob.
    unfold mbind, M_bind, bind, get, log, emit, modify, newDate,
      setPreviousJobs.
    rewrite Hj, HL, Ho.
    destruct (noJobStart opts) as [[]|]; [done| |];
      cbn [fst snd]; rewrite Hcreate; simpl; rewrite Hadd;
      eexists; (split; [reflexivity|]); by destruct s7. }
  destruct Hrun8 as (s8 & H8 & Hp8 & Ha8).
  assert (Hpipe : pipeline (stages env opts) (started env s) = (Fail e2, s8)).
  { change (stages env opts)
      with (take 7 (stages env opts) ++ [createMarlinJob env opts]).
    rewrite pipeline_app, Hpre.
    change (pipeline [createMarlinJob env opts] s7)
      with (bind (createMarlinJob env opts) (fun _ => ret tt) s7).
    unfold bind. by rewrite H8. }
  rewrite run_unfold, Hpipe, H8. cbn [fst snd].
  rewrite pipelineDone_recorded by done.
  destruct (recordAndReport_run (Some e2) s8 _ Hp8)
    as (s9 & -> & Ht & Hs & Hp & G1 & G2 & G3).
  cbn [fst snd]. repeat split; try done.
  - rewrite Ht. rewrite !elem_of_app. right. right. left. left.
  - rewrite G1, Ha8, F1. reflexivity.
  - rewrite G2, Ha8, F2. reflexivity.
  - rewrite G3. unfold fatal. rewrite Hsnf, Ha8, F3. reflexivity.
Qed.

End Run.

(** * Further properties *)

(** ** What a computation adds to the trace *)

Section Tame.

Variable Q : Event -> Prop.

Lemma tame_ret {A} (a : A) : tame Q (ret a).
Proof. intros s. split; [done|]. exists []. by rewrite app_nil_r. Qed.

Lemma tame_fail {A} (e : Err) : tame Q (@fail A e).
Proof. intros s. split; [done|]. exists []. by rewrite app_nil_r. Qed.

Lemma tame_throw {A} : tame Q (@throw A).
Proof. intros s. split; [done|]. exists []. by rewrite app_nil_r. Qed.

Lemma tame_get : tame Q get.
Proof. intros s. split; [done|]. exists []. by rewrite app_nil_r. Qed.

Lemma tame_callback (o : option Err) : tame Q (callback o).
Proof. destruct o; [apply tame_fail|apply tame_ret]. Qed.

Lemma tame_emit (ev : Event) : Q ev -> tame Q (emit ev).
Proof.
  intros Hev s. split; [by destruct s|]. exists [ev].
  split; [by destruct s|]. by apply Forall_singleton.
Qed.

Lemma tame_newDate (env : Env) : tame Q (newDate env).
Proof.
  intros s. split; [destruct s; simpl; lia|]. exists [].
  rewrite app_nil_r. by destruct s.
Qed.

(** A write to fields other than the clock and the trace. *)
Lemma tame_modify (f : State -> State) :
  (forall s, ticks (f s) = ticks s /\ trace (f s) = trace s) ->
  tame Q (modify f).
Proof.
  intros Hf s. destruct (Hf s) as [Ht Hr]. unfold modify. simpl.
  split; [lia|]. exists []. by rewrite app_nil_r.
Qed.

Lemma tame_bind {A B} (c : M A) (k : A -> M B) :
  tame Q c -> (forall a, tame Q (k a)) -> tame Q (c ≫= k).
Proof.
  intros Hc Hk s. unfold mbind, M_bind, bind.
  destruct (Hc s) as [Ht (evs & Hevs & HQ)].
  destruct (c s) as [[a|e|] s1]; cbn [fst snd] in *.
  - destruct (Hk a s1) as [Ht' (evs' & Hevs' & HQ')].
    split; [lia|]. exists (evs ++ evs').
    split; [by rewrite Hevs', Hevs, app_assoc|by apply Forall_app].
  - split; [done|]. by exists evs.
  - split; [done|]. by exists evs.
Qed.

Lemma tame_attempt {A} (c : M A) : tame Q c -> tame Q (attempt c).
Proof.
  intros Hc s. unfold attempt. specialize (Hc s).
  by destruct (c s) as [[a|e|] s1].
Qed.

Lemma tame_pipeline (funcs : list (M unit)) :
  Forall (tame Q) funcs -> tame Q (pipeline funcs).
Proof.
  induction 1 as [|f fs Hf _ IH]; simpl.
  - apply tame_ret.
  - apply tame_bind; [done|]. by intros _.
Qed.

Lemma tame_forEachParallel {A B} (func : A -> M B) (inputs : list A) :
  (forall x, tame Q (func x)) -> tame Q (forEachParallel func inputs).
Proof.
  intros Hf. induction inputs as [|x xs IH]; simpl.
  - apply tame_ret.
  - apply tame_bind; [by apply tame_attempt|]. intros r.
    apply tame_bind; [done|]. intros rs. apply tame_ret.
Qed.

End Tame.

Section TameStages.

Variable env : Env.
Variable opts : Opts.
Variable Q : Event -> Prop.

Hypothesis Qlog : forall l m, Q (ELog l m).
Hypothesis QgetObject : forall p, Q (EGetObject p).
Hypothesis QgetJob : forall id, Q (EGetJob id).
Hypothesis QpreAudit : forall id, Q (EPreAudit id).
Hypothesis QjobAudit : forall a, Q (EJobAudit a).
Hypothesis QlistJobs : forall n, Q (EListJobs n).
Hypothesis Qcancel : forall id, Q (ECancelJob id).
Hypothesis Qmkdir : forall d, Q (EMkdir d).
Hypothesis Qstat : forall f, Q (EStat f).
Hypothesis Qobjects : Q EGetJobObjects.
Hypothesis Qdefinition : Q EGetJobDefinition.
Hypothesis Qasset :
  forall f p, assetFile opts = Some f -> assetObject opts = Some p ->
              Q (EPut p (Raw f)).
Hypothesis Qcreate : forall j, Q (ECreateJob j).
Hypothesis QaddJobKey : forall id objs b, Q (EAddJobKey id objs b).
Hypothesis Qrecord : forall L, Q (EPut (previousJobsObject opts) (Json L)).
Hypothesis QrunAudit : forall a, Q (ERunAudit a).

Lemma tame_log (l : Level) (m : string) : tame Q (log l m).
Proof. apply tame_emit, Qlog. Qed.

Ltac tame_step :=
  first
    [ apply tame_bind; [|intros ?]
    | apply tame_ret | apply tame_fail | apply tame_throw | apply tame_get
    | apply tame_callback | apply tame_newDate | apply tame_log
    | apply tame_emit; solve [auto]
    | apply tame_modify; intros []; done
    | apply tame_attempt
    | apply tame_forEachParallel; intros ? ].

Ltac tame_go :=
  repeat first
    [ tame_step
    | match goal with
      | |- tame _ (match ?x with _ => _ end) => destruct x
      end ].

Lemma tame_setPreviousJobs (L : Ledger) : tame Q (setPreviousJobs L).
Proof. unfold setPreviousJobs. tame_go. Qed.

Lemma tame_getJobStatus (id : string) : tame Q (getJobStatus env id).
Proof. unfold getJobStatus. tame_go. Qed.

Lemma tame_getObject (path : string) : tame Q (getObject env path).
Proof. unfold getObject. tame_go. Qed.

Lemma tame_put (path : string) (d : Doc) :
  Q (EPut path d) -> tame Q (put env path d).
Proof. intros Hput. unfold put. tame_go. Qed.

Lemma tame_auditJob (j : RemoteJob) : tame Q (auditJob env j).
Proof. unfold auditJob. tame_go. Qed.

Lemma tame_partitionJobs (entries : list (string * JobRecord))
    (ja jd : list string) :
  tame Q (partitionJobs env entries ja jd).
Proof.
  revert ja jd. induction entries as [|[k r] rest IH]; intros ja jd; simpl.
  - tame_go.
  - tame_go. apply IH.
Qed.

Lemma tame_markAudited (zs : list (string * (Err + unit))) (L : Ledger) :
  tame Q (markAudited zs L).
Proof.
  revert L. induction zs as [|[k op] zs IH]; intros L; simpl.
  - tame_go.
  - tame_go. apply IH.
Qed.

Lemma tame_getNextJob (jobs : list string) (acc : list RemoteJob) :
  tame Q (getNextJob env jobs acc).
Proof.
  revert acc. induction jobs as [|jid rest IH]; intros acc; simpl.
  - tame_go.
  - tame_go; first [apply tame_getJobStatus | apply IH].
Qed.

Lemma tame_mkdir (d : string) : tame Q (mkdir env d).
Proof. unfold mkdir. tame_go. Qed.

Lemma tame_mkdirs (dirs : list string) :
  tame Q (pipeline (map (mkdir env) dirs)).
Proof.
  apply tame_pipeline, Forall_forall. intros f Hf.
  apply list_elem_of_fmap in Hf as (d & -> & _). apply tame_mkdir.
Qed.

(** The loops and calls the stages are made of. *)
Ltac tame_base :=
  first [ apply tame_setPreviousJobs | apply tame_partitionJobs
        | apply tame_getJobStatus | apply tame_auditJob
        | apply tame_markAudited | apply tame_getObject
        | apply tame_getNextJob | apply tame_mkdirs ].

Lemma tame_auditParsed (L : Ledger) : tame Q (auditParsed env L).
Proof. unfold auditParsed, auditFetched. tame_go; tame_base. Qed.

Lemma tame_auditPreviousJobs : tame Q (auditPreviousJobs env opts).
Proof.
  unfold auditPreviousJobs. cbv zeta.
  apply tame_bind; [apply tame_log|intros _].
  apply tame_bind; [apply tame_setPreviousJobs|intros _].
  apply tame_bind; [apply tame_attempt, tame_getObject|intros r].
  unfold gotObject. destruct r as [e|d].
  - destruct (decide _); [apply tame_log|apply tame_fail].
  - destruct (JSON_parse d); [apply tame_fail|apply tame_auditParsed].
Qed.

Lemma tame_findRunningJobs : tame Q (findRunningJobs env opts).
Proof. unfold findRunningJobs, checkResults. tame_go; tame_base. Qed.

Lemma tame_checkRunningJobs : tame Q (checkRunningJobs env opts).
Proof.
  unfold checkRunningJobs.
  tame_go; first [tame_base | unfold checkResults; tame_go].
Qed.

Lemma tame_setupDirectories : tame Q (setupDirectories env opts).
Proof. unfold setupDirectories. tame_go; tame_base. Qed.

Lemma tame_setupAssetObject : tame Q (setupAssetObject env opts).
Proof.
  unfold setupAssetObject.
  destruct (assetFile opts) as [file|] eqn:Hf; [|tame_go].
  destruct (assetObject opts) as [p|] eqn:Hp; [|tame_go].
  assert (Hput : tame Q (put env p (Raw file)))
    by (by apply tame_put, Qasset).
  tame_go; exact Hput.
Qed.

Lemma tame_invokeGetJobObjects : tame Q (invokeGetJobObjects env).
Proof. unfold invokeGetJobObjects. tame_go. Qed.

Lemma tame_invokeGetJobDefinition : tame Q (invokeGetJobDefinition env opts).
Proof. unfold invokeGetJobDefinition. tame_go. Qed.

Lemma tame_stopIfDisabled : tame Q (stopIfDisabled opts).
Proof. unfold stopIfDisabled. tame_go. Qed.

Lemma tame_createMarlinJob : tame Q (createMarlinJob env opts).
Proof. unfold createMarlinJob. tame_go; tame_base. Qed.

Lemma tame_recordJobs : tame Q (recordJobs env opts).
Proof.
  unfold recordJobs. apply tame_bind; [apply tame_get|]. intros s.
  destruct (previousJobs s); [|apply tame_throw]. apply tame_put, Qrecord.
Qed.

Lemma tame_writeAuditRecord : tame Q (writeAuditRecord env opts).
Proof. unfold writeAuditRecord. tame_go. Qed.

Lemma tame_pipelineDone (err : option Err) :
  tame Q (pipelineDone env opts err).
Proof.
  assert (Hrec : forall err, tame Q (recordAndReport env opts err)).
  { intros err'. unfold recordAndReport.
    apply tame_bind.
    { destruct err' as [e|]; [destruct (err_shouldNotFatal e)|]; tame_go. }
    intros _. apply tame_bind; [apply tame_attempt, tame_recordJobs|].
    intros r2. apply tame_bind.
    { destruct r2 as [err2|]; [destruct (ignoredPutError err2)|]; tame_go. }
    intros _. apply tame_bind; [apply tame_writeAuditRecord|]. intros _.
    apply tame_ret. }
  unfold pipelineDone. destruct err as [e|]; [|apply Hrec].
  destruct (hasCauseWithName e jobDisabled); [|apply Hrec].
  apply tame_bind; [apply tame_log|]. intros _.
  apply tame_bind; [apply tame_writeAuditRecord|]. intros _. apply tame_ret.
Qed.

(** With [noJobStart] the last stage and the end of the run only log
    and put. *)
Lemma tame_createMarlinJob_dry :
  noJobStart opts = Some true -> tame Q (createMarlinJob env opts).
Proof. intros Hdry. unfold createMarlinJob. rewrite Hdry. tame_go. Qed.

Lemma tame_pipelineDone_dry (err : option Err) :
  noJobStart opts = Some true -> tame Q (pipelineDone env opts err).
Proof.
  intros Hdry.
  assert (Hw : tame Q (writeAuditRecord env opts)).
  { unfold writeAuditRecord. rewrite Hdry. apply tame_ret. }
  assert (Hrec : forall err, tame Q (recordAndReport env opts err)).
  { intros err'. unfold recordAndReport.
    apply tame_bind.
    { destruct err' as [e|]; [destruct (err_shouldNotFatal e)|]; tame_go. }
    intros _. apply tame_bind; [apply tame_attempt, tame_recordJobs|].
    intros r2. apply tame_bind.
    { destruct r2 as [err2|]; [destruct (ignoredPutError err2)|]; tame_go. }
    intros _. apply tame_bind; [apply Hw|]. intros _.
    apply tame_ret. }
  unfold pipelineDone. destruct err as [e|]; [|apply Hrec].
  destruct (hasCauseWithName e jobDisabled); [|apply Hrec].
  apply tame_bind; [apply tame_log|]. intros _.
  apply tame_bind; [apply Hw|]. intros _. apply tame_ret.
Qed.

End TameStages.

(** ** The run as a whole *)

Section RunTrace.

Variable env : Env.
Variable opts : Opts.

Lemma started_trace (s : State) :
  trace (started env s) = trace s /\ ticks (started env s) = S (ticks s).
Proof. by destruct s. Qed.

(** The first seven stages add no call that creates a job. *)
Lemma prefix_not_creating :
  tame not_creating (pipeline (take 7 (stages env opts))).
Proof.
  apply tame_pipeline. simpl.
  repeat apply Forall_cons_2; [| | | | | | |apply Forall_nil_2].
  - by apply tame_stopIfDisabled.
  - by apply tame_auditPreviousJobs.
  - by apply tame_checkRunningJobs.
  - by apply tame_setupDirectories.
  - by apply tame_setupAssetObject.
  - by apply tame_invokeGetJobObjects.
  - by apply tame_invokeGetJobDefinition.
Qed.

(** Whatever their outcome, the first seven stages leave [startedJob]
    and [numberOfObjects] alone. *)
Lemma prefix_started (s0 : State) :
  startedJob (audit (snd (pipeline (take 7 (stages env opts)) s0)))
  = startedJob (audit s0) /\
  numberOfObjects (audit (snd (pipeline (take 7 (stages env opts)) s0)))
  = numberOfObjects (audit s0).
Proof.
  change (take 7 (stages env opts))
    with ([stopIfDisabled opts; auditPreviousJobs env opts]
          ++ middle_stages env opts).
  rewrite pipeline_app.
  change (pipeline [stopIfDisabled opts; auditPreviousJobs env opts] s0)
    with (bind (stopIfDisabled opts)
            (fun _ => bind (auditPreviousJobs env opts) (fun _ => ret tt))
            s0).
  unfold bind.
  destruct (quiet_stopIfDisabled opts True s0) as [_ (_ & F1 & F2 & _)].
  destruct (stopIfDisabled opts s0) as [[[]|e|] sa]; try done.
  destruct (auditPreviousJobs_outcome env opts sa) as (_ & _ & Ha & _).
  destruct (auditPreviousJobs env opts sa) as [[[]|e|] sb];
    cbn [fst snd] in *; [|split; congruence|split; congruence].
  unfold ret.
  destruct (quiet_middle_stages env opts False (fun H => match H with end) sb)
    as [_ (_ & G1 & G2 & _)].
  destruct (pipeline (middle_stages env opts) sb) as [[[]|e|] sc];
    cbn [fst snd] in *; split; congruence.
Qed.

Lemma writeAuditRecord_started (s : State) :
  startedJob (audit (snd (writeAuditRecord env opts s)))
  = startedJob (audit s) /\
  numberOfObjects (audit (snd (writeAuditRecord env opts s)))
  = numberOfObjects (audit s).
Proof.
  destruct (writeAuditRecord_run env opts s) as (s2 & -> & _ & _ & _ & H).
  cbn [snd]. tauto.
Qed.

(** The end of the run leaves [startedJob] and [numberOfObjects]
    alone. *)
Lemma pipelineDone_started (err : option Err) (s : State) :
  startedJob (audit (snd (pipelineDone env opts err s)))
  = startedJob (audit s) /\
  numberOfObjects (audit (snd (pipelineDone env opts err s)))
  = numberOfObjects (audit s).
Proof.
  assert (Hrec : forall err,
    startedJob (audit (snd (recordAndReport env opts err s)))
    = startedJob (audit s) /\
    numberOfObjects (audit (snd (recordAndReport env opts err s)))
    = numberOfObjects (audit s)).
  { intros err'. destruct (previousJobs s) as [L|] eqn:HL.
    - destruct (recordAndReport_run env opts err' s L HL)
        as (s2 & -> & _ & _ & _ & H1 & H2 & _).
      by cbn [snd].
    - unfold recordAndReport, recordJobs.
      unfold mbind, M_bind, bind, attempt, modify, log, emit, get, throw.
      destruct err' as [[nm msg code [snf|] cause]|]; simpl;
        rewrite HL; simpl; done. }
  unfold pipelineDone. destruct err as [e|]; [|apply Hrec].
  destruct (hasCauseWithName e jobDisabled); [|apply Hrec].
  unfold mbind, M_bind, bind, log, emit, modify, ret.
  destruct (writeAuditRecord_started
              (set_trace (trace s ++ [ELog Info (err_message e)]) s))
    as [H1 H2].
  destruct (writeAuditRecord env opts _) as [[[]|e'|] s2]; cbn [snd] in *;
    by destruct s.
Qed.

Lemma pipelineDone_not_creating (err : option Err) :
  tame not_creating (pipelineDone env opts err).
Proof. by apply tame_pipelineDone. Qed.

(** X1: a job is created only when the seven stages before the creation
    have all succeeded.  When one of them fails (the job is disabled,
    the jobs object does not parse, a job is already running, there are
    no objects, ...) the run issues neither [createJob] nor
    [addJobKey], and its audit keeps [startedJob] 0 and no
    [numberOfObjects]. *)
Theorem no_job_unless_all_stages_pass (s : State) :
  fst (pipeline (take 7 (stages env opts)) (started env s)) <> Ok tt ->
  (exists evs,
      trace (snd (run env opts s)) = trace s ++ evs /\
      Forall not_creating evs) /\
  startedJob (audit (snd (run env opts s))) = 0 /\
  numberOfObjects (audit (snd (run env opts s))) = None.
Proof.
  intros Hfail. rewrite run_unfold.
  change (stages env opts)
    with (take 7 (stages env opts) ++ [createMarlinJob env opts]).
  rewrite pipeline_app.
  destruct (prefix_not_creating (started env s)) as [_ (evs & Hevs & HQ)].
  destruct (prefix_started (started env s)) as [P1 P2].
  destruct (started_trace s) as [Htr _]. rewrite Htr in Hevs.
  destruct (pipeline (take 7 (stages env opts)) (started env s))
    as [[[]|e|] s1]; cbn [fst snd] in *; [done| |].
  - destruct (pipelineDone_not_creating (Some e) s1)
      as [_ (evs' & Hevs' & HQ')].
    destruct (pipelineDone_started (Some e) s1) as [D1 D2].
    split; [|split; [by rewrite D1, P1; destruct s
                    |by rewrite D2, P2; destruct s]].
    exists (evs ++ evs'). rewrite Hevs', Hevs, app_assoc.
    split; [done|by apply Forall_app].
  - split; [by exists evs|]. by destruct s.
Qed.

(** X2: a run of a disabled job touches nothing.  When the run is not
    forced and all jobs are disabled or this job is not enabled, no
    remote call is issued: the error is logged, the audit record of the
    run is logged with [cronFailed] still 1, the object store and
    [opts.previousJobs] are as before, and the callback gets no
    error. *)
Theorem disabled_run_is_silent (s : State) :
  forceRun opts = false ->
  disableAllJobs opts = Some true \/ jobEnabled opts = Some false ->
  exists msg,
    fst (run env opts s) = Ok None /\
    trace (snd (run env opts s))
    = trace s ++ [ELog Info msg] ++ audit_record opts (snd (run env opts s))
    /\
    store (snd (run env opts s)) = store s /\
    previousJobs (snd (run env opts s)) = previousJobs s /\
    cronFailed (audit (snd (run env opts s))) = 1.
Proof.
  intros Hforce Hoff.
  assert (Hen : enabled opts = false).
  { unfold enabled. rewrite Hforce. simpl.
    destruct Hoff as [H|H]; rewrite H; simpl; [done|].
    by rewrite andb_false_r. }
  destruct (stopIfDisabled_disabled opts (started env s) Hen) as [msg Hstop].
  rewrite run_unfold, pipeline_stages_unfold, Hstop.
  destruct (pipelineDone_disabled env opts (disabledError msg) (started env s))
    as (s2 & -> & Ht & Hs & Hp & Hc); [done|].
  exists msg. cbn [fst snd]. rewrite Ht, Hs, Hp, Hc. by destruct s.
Qed.

(** X3: [forceRun] overrides both switches: a forced run is the same
    run whatever [disableAllJobs] and [jobEnabled] are set to. *)
Theorem forced_run_ignores_switches (all one : option bool) (s : State) :
  forceRun opts = true ->
  run env (with_switches all one opts) s = run env opts s.
Proof.
  intros Hforce. destruct opts as [n r p f d e nj af ao].
  simpl in Hforce. subst f. reflexivity.
Qed.

End RunTrace.

(** ** More on the audit of previous jobs *)

Section AuditMore.

Variable env : Env.

Lemma NoDup_to_audit (L : Ledger) : NoDup (to_audit (map_to_list L)).
Proof.
  unfold to_audit.
  eapply sublist_NoDup; [apply (NoDup_fst_map_to_list L)|].
  apply fmap_sublist, sublist_filter.
Qed.

(** X4: the audit only sets flags and deletes.  Every entry of the
    resulting jobs object was in the parsed one under the same job id,
    with the same [timeCreated]; it is the same entry or the same entry
    with [audited] set, so a flag that is set stays set. *)
Theorem audit_only_sets_flags_or_deletes (L : Ledger) (s : State) :
  exists L',
    previousJobs (snd (auditParsed env L s)) = Some L' /\
    forall k r', L' !! k = Some r' ->
      exists r, L !! k = Some r /\
                timeCreated r' = timeCreated r /\
                (r' = r \/ (audited r = false /\ r' = set_audited r)).
Proof.
  destruct (auditParsed_cases env L s)
    as [(_ & _ & Hl)|[(_ & _ & Hl)|(_ & _ & _ & Hl)]].
  - exists L. split; [done|]. intros k r' Hk. exists r'. auto.
  - exists L. split; [done|]. intros k r' Hk. exists r'. auto.
  - eexists. split; [exact Hl|]. intros k r'.
    rewrite deleteAudited_lookup, mark_pure_lookup.
    destruct (L !! k) as [r|] eqn:Hk; [|by case_bool_decide].
    intros Hr'. exists r. split; [done|].
    assert (Hcases : r' = r \/ r' = set_audited r).
    { destruct (audited r) eqn:Ha; simpl in Hr';
        repeat match type of Hr' with
               | context [bool_decide ?P] => destruct (bool_decide P)
               end; simpl in Hr'; rewrite ?Ha in Hr'; simpl in Hr';
        inversion Hr'; auto. }
    destruct Hcases as [->| ->]; [auto|]. split; [done|].
    destruct (audited r) eqn:Ha; [left; by destruct r; simpl in *; subst|].
    by right.
Qed.

Lemma omap_fetched_id_fetches (ks : list string) :
  omap fetched_id (map EGetJob ks) = ks.
Proof. induction ks as [|k ks IH]; simpl; [done|]. f_equal. exact IH. Qed.

Lemma omap_fetched_id_audit_events (js : list RemoteJob) :
  omap fetched_id (concat (map (audit_events env) js)) = [].
Proof.
  induction js as [|j js IH]; simpl; [done|].
  rewrite omap_app, IH, app_nil_r. unfold audit_events.
  destruct (still_running j); [done|].
  destruct (preAudit env) as [hook|]; [|done].
  by destruct (hook j (auditOf j)) as [[err|] a'].
Qed.

Lemma omap_fetched_id_debug_logs (n : nat) :
  omap fetched_id (debug_logs n) = [].
Proof. induction n as [|n IH]; simpl; [done|exact IH]. Qed.

(** X5: the audit fetches the status of every un-audited entry's job
    once, and of no other job: an entry whose flag is set is not
    fetched again. *)
Theorem audit_fetches_each_unaudited_once (L : Ledger) (s : State) :
  exists evs,
    trace (snd (auditParsed env L s)) = trace s ++ evs /\
    NoDup (omap fetched_id evs) /\
    forall k, k ∈ omap fetched_id evs <->
              exists r, L !! k = Some r /\ audited r = false.
Proof.
  rewrite auditParsed_run. cbv zeta.
  pose proof (NoDup_to_audit L) as Hnd.
  pose proof (elem_of_to_audit L) as Hin.
  destruct (to_audit (map_to_list L)) as [|k0 ks] eqn:Hja.
  - eexists. split; [by destruct s|]. simpl. split; [constructor|].
    intros k. by rewrite <- Hin.
  - set (ja := k0 :: ks) in *.
    destruct (multiError _).
    + exists (map EGetJob ja). split; [by destruct s|].
      rewrite omap_fetched_id_fetches. split; [done|].
      intros k. by rewrite <- Hin.
    + eexists (map EGetJob ja ++ _ ++ _).
      split; [destruct s; simpl; by rewrite <- app_assoc|].
      rewrite !omap_app, omap_fetched_id_fetches,
        omap_fetched_id_audit_events, omap_fetched_id_debug_logs.
      simpl. rewrite app_nil_r. split; [done|].
      intros k. by rewrite <- Hin.
Qed.

(** X6: the loop over the parsed jobs object.  With the clock at [now]
    it reads the clock once for every entry, puts into [jobsToAudit]
    exactly the ids of the un-audited entries, and into [jobsToDelete]
    exactly the ids of the entries created 604800500 milliseconds or
    more before [now] (seven days and half a second: the age is rounded
    to seconds); an entry can be in both. *)
Theorem partition_thresholds (now : Z) (L : Ledger) (s : State) :
  (forall n, clock env n = now) ->
  exists ja jd s',
    partitionJobs env (map_to_list L) [] [] s = (Ok (ja, jd), s') /\
    ticks s' = (ticks s + size L)%nat /\
    (forall k, k ∈ ja <-> exists r, L !! k = Some r /\ audited r = false) /\
    (forall k, k ∈ jd <->
               exists r, L !! k = Some r /\
                         now - timeCreated r >= 604800500).
Proof.
  intros Hclock. rewrite partitionJobs_run. eexists _, _, _.
  split; [reflexivity|]. split.
  { destruct s; simpl. by rewrite length_map_to_list. }
  split.
  - intros k. simpl. apply elem_of_to_audit.
  - intros k. simpl. rewrite (elem_of_to_delete_const env now) by done.
    assert (Hexp : forall r, expired now r = true <->
                             now - timeCreated r >= 604800500).
    { intros r. unfold expired, round_div1000.
      change MAX_SECONDS_IN_AUDIT_OBJECT with 604800.
      rewrite Z.gtb_gt. split; intros H.
      - apply Z.gt_lt in H.
        destruct (Z_lt_ge_dec (now - timeCreated r) 604800500) as [Hlt|];
          [|done].
        exfalso. assert ((now - timeCreated r + 500) / 1000 <= 604800);
          [|lia].
        apply Z.lt_succ_r, Z.div_lt_upper_bound; lia.
      - apply Z.lt_gt. apply Z.lt_le_trans with (604801); [lia|].
        apply Z.div_le_lower_bound; lia. }
    split.
    + intros (r & Hr & He). exists r.
      split; [by apply elem_of_map_to_list|by apply Hexp].
    + intros (r & Hr & He). exists r.
      split; [by apply elem_of_map_to_list|by apply Hexp].
Qed.

Lemma audit_logged_events (js : list RemoteJob) :
  preAudit env = None ->
  omap audit_logged (concat (map (audit_events env) js))
  = auditOf <$> filter (fun j => still_running j = false) js.
Proof.
  intros Hhook. induction js as [|j js IH]; simpl; [done|].
  rewrite omap_app, IH, filter_cons. unfold audit_events. rewrite Hhook.
  by destruct (still_running j).
Qed.

Lemma audit_logged_fetches (ks : list string) :
  omap audit_logged (map EGetJob ks) = [].
Proof. induction ks as [|k ks IH]; simpl; [done|exact IH]. Qed.

Lemma audit_logged_debug_logs (n : nat) :
  omap audit_logged (debug_logs n) = [].
Proof. induction n as [|n IH]; simpl; [done|exact IH]. Qed.

Lemma elem_of_successes (ks : list string) (j : RemoteJob) :
  j ∈ successes (map (getJob env) ks) <->
  exists k, k ∈ ks /\ getJob env k = inr j.
Proof.
  unfold successes. rewrite list_elem_of_omap. split.
  - intros (x & Hx & Hj). apply list_elem_of_In, in_map_iff in Hx
      as (k & <- & Hk). exists k. split; [by apply list_elem_of_In|].
    destruct (getJob env k); congruence.
  - intros (k & Hk & Hj). exists (inr j). split; [|done].
    apply list_elem_of_In, in_map_iff. exists k.
    split; [done|by apply list_elem_of_In].
Qed.

Lemma successes_perm (l l' : list string) :
  l ≡ₚ l' ->
  successes (map (getJob env) l) ≡ₚ successes (map (getJob env) l').
Proof. intros H. unfold successes. by apply omap_Permutation, Permutation_map. Qed.

Lemma successes_fetches (ja : list string) (js : list RemoteJob) :
  fetches env ja js -> successes (map (getJob env) ja) = js.
Proof.
  induction 1 as [|k j ja js Hj _ IH]; [done|].
  unfold successes in *. cbn [map omap list_omap]. rewrite Hj. by rewrite IH.
Qed.

Lemma fetches_all_fetched (ja : list string) (js : list RemoteJob) :
  fetches env ja js -> all_fetched env ja.
Proof.
  induction 1 as [|k j ja js Hj _ IH]; intros k' Hk'.
  - by apply elem_of_nil in Hk'.
  - apply elem_of_cons in Hk' as [->|Hk']; [by exists j|by apply IH].
Qed.

Lemma not_still_running (j : RemoteJob) :
  still_running j = false <->
  job_state j <> "running" /\ job_state j <> "queued".
Proof.
  unfold still_running, RUNNING_STATE, QUEUED_STATE.
  rewrite bool_decide_eq_false. tauto.
Qed.

(** X7: without a [preAudit] hook the audit logs the audit records of
    the fetched jobs that have finished, whichever entries the marking
    loop then flags.  When the job of every un-audited entry is
    fetched, the records logged are, up to their order, one [auditOf j]
    for each of these jobs that is neither running nor queued; when a
    fetch fails, or nothing is un-audited, no record is logged at
    all. *)
Theorem audit_records_for_finished_jobs (L : Ledger) (s : State) :
  preAudit env = None ->
  exists evs,
    trace (snd (auditParsed env L s)) = trace s ++ evs /\
    (forall a, a ∈ omap audit_logged evs <->
      (forall k r, L !! k = Some r -> audited r = false ->
                   exists j, getJob env k = inr j) /\
      exists k r j,
        L !! k = Some r /\ audited r = false /\ getJob env k = inr j /\
        job_state j <> "running" /\ job_state j <> "queued" /\
        a = auditOf j) /\
    (forall ja js,
        NoDup ja ->
        (forall k, k ∈ ja <-> exists r, L !! k = Some r /\ audited r = false) ->
        fetches env ja js ->
        omap audit_logged evs
        ≡ₚ auditOf <$> filter (fun j => job_state j <> "running" /\
                                        job_state j <> "queued") js).
Proof.
  intros Hhook. rewrite auditParsed_run. cbv zeta.
  pose proof (elem_of_to_audit L) as Hin.
  pose proof (NoDup_to_audit L) as Hnd.
  destruct (to_audit (map_to_list L)) as [|k0 ks] eqn:Hja.
  - eexists. split; [by destruct s|]. split.
    + intros a. simpl. split.
      * by intros ?%elem_of_nil.
      * intros (_ & k & r & j & Hk & Ha & _).
        assert (Hk' : k ∈ @nil string) by (apply Hin; by exists r).
        by apply elem_of_nil in Hk'.
    + intros ja js _ Hja' Hf. simpl.
      destruct Hf as [|k j ja js Hj Hf]; [done|].
      assert (Hk' : k ∈ @nil string) by (apply Hin, Hja'; left).
      by apply elem_of_nil in Hk'.
  - set (ja := k0 :: ks) in *.
    destruct (fetch_outcome env (arrival env ja))
      as [[Hnone Hall]|(err & k & e & Herr & Hk & He)].
    + apply (proj1 (all_fetched_arrival env ja)) in Hall.
      rewrite Hnone.
      exists (map EGetJob ja
              ++ concat (map (audit_events env)
                           (successes (map (getJob env) (arrival env ja))))
                 ++ debug_logs
                      (length (zip ja (map (audit_op env)
                                 (successes (map (getJob env)
                                               (arrival env ja))))))).
      split.
      { cbn [snd].
        rewrite trace_set_previousJobs, !trace_add_events, trace_set_ticks,
          trace_set_previousJobs.
        by rewrite <- app_assoc. }
      assert (Hlogged : forall n,
        omap audit_logged
          (map EGetJob ja
           ++ concat (map (audit_events env)
                        (successes (map (getJob env) (arrival env ja))))
              ++ debug_logs n)
        ≡ₚ auditOf <$> filter (fun j => still_running j = false)
                          (successes (map (getJob env) ja))).
      { intros n.
        rewrite !omap_app, audit_logged_fetches, audit_logged_events,
          audit_logged_debug_logs by done.
        rewrite app_nil_l, app_nil_r.
        apply fmap_Permutation, filter_Permutation, successes_perm.
        apply completion_order_perm. }
      split.
      * intros a. rewrite Hlogged, list_elem_of_fmap. split.
        -- intros (j & -> & Hj). apply list_elem_of_filter in Hj as [Hrun Hj].
           apply (proj1 (elem_of_successes ja j)) in Hj as (k & Hk & Hj).
           apply Hin in Hk as (r & Hr & Ha).
           apply not_still_running in Hrun as [Hn1 Hn2].
           split.
           { intros k' r' Hk' Ha'. apply Hall, Hin. by exists r'. }
           exists k, r, j. by repeat split.
        -- intros (_ & k & r & j & Hr & Ha & Hj & Hn1 & Hn2 & ->).
           exists j. split; [done|]. apply list_elem_of_filter. split.
           { by apply not_still_running. }
           apply (proj2 (elem_of_successes ja j)). exists k. split; [|done].
           apply Hin. by exists r.
      * intros ja' js Hnd' Hja' Hf. rewrite Hlogged.
        assert (Hperm : ja ≡ₚ ja').
        { apply NoDup_Permutation; [done|done|].
          intros k. by rewrite Hin, Hja'. }
        rewrite <- (successes_fetches ja' js Hf).
        rewrite <- (list_filter_iff _ _ _ not_still_running).
        by apply fmap_Permutation, filter_Permutation, successes_perm.
    + apply (proj1 (elem_of_arrival env ja k)) in Hk.
      rewrite Herr. exists (map EGetJob ja). split; [by destruct s|].
      rewrite audit_logged_fetches. split.
      * intros a. split.
        -- by intros ?%elem_of_nil.
        -- intros (Hall & _). apply Hin in Hk as (r & Hr & Ha).
           destruct (Hall k r Hr Ha) as [j Hj]. congruence.
      * intros ja' js _ Hja' Hf.
        assert (Hk' : k ∈ ja') by (by apply Hja', Hin).
        destruct (fetches_all_fetched ja' js Hf k Hk') as [j Hj]. congruence.
Qed.

End AuditMore.

(** ** More on the run *)

Section RunMore.

Variable env : Env.
Variable opts : Opts.

(** X8: a jobs object that is not there yet is an empty jobs object,
    not an error.  When the fetch answers [ResourceNotFound] (the store
    has nothing under the path), the audit of previous jobs succeeds
    with [opts.previousJobs] empty: it logs that and fetches no
    job. *)
Theorem missing_jobs_object_is_empty (s : State) :
  (getObject_fault env (previousJobsObject opts) = None /\
   store s !! previousJobsObject opts = None) \/
  (exists e, getObject_fault env (previousJobsObject opts) = Some e /\
             err_code e = Some "ResourceNotFound") ->
  exists msg,
    auditPreviousJobs env opts s =
    (Ok tt,
     add_events [ELog Info "Auditing previous jobs.";
                 EGetObject (previousJobsObject opts);
                 ELog Info msg]
       (set_previousJobs (Some ∅) s)).
Proof.
  intros Hmissing. eexists. unfold auditPreviousJobs, setPreviousJobs.
  unfold mbind, M_bind, bind, attempt, log, emit, modify.
  rewrite getObject_run, store_set_previousJobs, store_set_trace.
  destruct Hmissing as [[Hf Hs]|(e & Hf & Hc)]; rewrite Hf.
  - rewrite Hs. unfold gotObject. rewrite decide_True by done.
    unfold log, emit, modify. f_equal. state_eq s.
  - unfold gotObject. rewrite decide_True by done.
    unfold log, emit, modify. f_equal. state_eq s.
Qed.

(** X9: when the fetch of the jobs object fails with another error than
    [ResourceNotFound], the run fails with that error, and its end still
    puts [opts.previousJobs], which is the empty object set before the
    fetch: unless that put fails too, the stored jobs object is replaced
    by the empty one. *)
Theorem failed_fetch_puts_empty_jobs_object (s : State) (e : Err) :
  enabled opts = true ->
  getObject_fault env (previousJobsObject opts) = Some e ->
  err_code e <> Some "ResourceNotFound" ->
  hasCauseWithName e jobDisabled = false ->
  fst (run env opts s) = Ok (Some e) /\
  previousJobs (snd (run env opts s)) = Some ∅ /\
  EPut (previousJobsObject opts) (JSON_stringify ∅)
    ∈ trace (snd (run env opts s)) /\
  store (snd (run env opts s)) = stored env opts ∅ (store s).
Proof.
  intros Hen Hget Hcode Hname.
  rewrite run_unfold, pipeline_stages_unfold.
  rewrite stopIfDisabled_enabled by done.
  set (sa := add_events _ (started env s)).
  assert (Haudit : exists s1,
    auditPreviousJobs env opts sa = (Fail e, s1) /\
    previousJobs s1 = Some ∅ /\ store s1 = store s).
  { unfold auditPreviousJobs, setPreviousJobs.
    unfold mbind, M_bind, bind, attempt, log, emit, modify.
    rewrite getObject_run, Hget. unfold gotObject.
    rewrite decide_False by done. eexists. split; [reflexivity|].
    subst sa. by destruct s. }
  destruct Haudit as (s1 & -> & Hp & Hst).
  rewrite pipelineDone_recorded by done.
  destruct (recordAndReport_run env opts (Some e) s1 ∅ Hp)
    as (s2 & -> & Ht & Hs & Hp2 & _).
  cbn [fst snd]. split; [done|]. split; [done|].
  split; [|by rewrite Hs, Hst].
  rewrite Ht, !elem_of_app. right. right. left. left.
Qed.

Lemma invokeGetJobObjects_nonempty (s s' : State) :
  invokeGetJobObjects env s = (Ok tt, s') ->
  exists objs, objects s' = Some objs /\ objs <> [] /\
               getJobObjects env = inr (Some objs).
Proof.
  unfold invokeGetJobObjects. munfold. simpl.
  destruct (getJobObjects env) as [e|[[|o objs]|]]; try done.
  intros [= <-]. by eexists.
Qed.

Lemma middle_stages_objects (s s' : State) :
  pipeline (middle_stages env opts) s = (Ok tt, s') ->
  exists objs, objects s' = Some objs /\ objs <> [] /\
               getJobObjects env = inr (Some objs).
Proof.
  change (middle_stages env opts) with
    ([checkRunningJobs env opts; setupDirectories env opts;
      setupAssetObject env opts]
     ++ [invokeGetJobObjects env; invokeGetJobDefinition env opts]).
  rewrite pipeline_app.
  destruct (pipeline _ s) as [[[]|e|] s1]; try done.
  simpl. unfold mbind, M_bind, bind.
  destruct (invokeGetJobObjects env s1) as [[[]|e|] s2] eqn:H6; try done.
  destruct (invokeGetJobDefinition env opts s2) as [[[]|e|] s3] eqn:H7;
    try done.
  unfold ret. intros [= <-].
  apply invokeGetJobObjects_nonempty in H6 as (objs & Ho & Hne & Hg).
  apply invokeGetJobDefinition_ok in H7 as [_ Ho'].
  exists objs. by rewrite Ho'.
Qed.

(** X10: a run whose eight stages succeed records the job it started.
    The caller's objects were not empty and were all added to the new
    job with the input ended; [opts.previousJobs] holds the job's entry,
    un-audited; the callback gets no error; the audit of the run has
    [startedJob] 1, the number of the objects and [cronFailed] 0; the
    jobs object put at the end is the one with the entry. *)
Theorem successful_run_records_job (s s1 : State) :
  pipeline (stages env opts) (started env s) = (Ok tt, s1) ->
  noJobStart opts <> Some true ->
  exists jid objs L r,
    jobId s1 = Some jid /\
    getJobObjects env = inr (Some objs) /\ objs <> [] /\
    EAddJobKey jid objs true ∈ trace s1 /\
    previousJobs s1 = Some L /\ L !! jid = Some r /\ audited r = false /\
    fst (run env opts s) = Ok None /\
    startedJob (audit (snd (run env opts s))) = 1 /\
    numberOfObjects (audit (snd (run env opts s))) = Some (length objs) /\
    cronFailed (audit (snd (run env opts s))) = 0 /\
    EPut (previousJobsObject opts) (JSON_stringify L)
      ∈ trace (snd (run env opts s)) /\
    store (snd (run env opts s)) = stored env opts L (store s1).
Proof.
  intros Hpipe Hstart. rewrite run_unfold, Hpipe.
  rewrite pipeline_stages_unfold in Hpipe.
  destruct (stopIfDisabled opts (started env s)) as [[[]|e|] sa]; try done.
  destruct (auditPreviousJobs_outcome env opts sa) as (_ & [L7 Hp] & _).
  destruct (auditPreviousJobs env opts sa) as [[[]|e|] sb]; try done.
  cbn [snd] in Hp.
  destruct (quiet_middle_stages env opts False (fun H => match H with end) sb)
    as [_ (G0 & _)].
  pose proof (middle_stages_ok env opts sb) as Hmid.
  pose proof (middle_stages_objects sb) as Hobjs.
  destruct (pipeline (middle_stages env opts) sb) as [[[]|e|] sc];
    try done.
  cbn [snd] in G0.
  destruct (Hmid sc eq_refl) as [_ [j Hj]].
  destruct (Hobjs sc eq_refl) as (objs & Ho & Hne & Hg).
  assert (HL : previousJobs sc = Some L7) by congruence.
  unfold createMarlinJob in Hpipe.
  unfold mbind, M_bind, bind, get, log, emit, modify, newDate,
    setPreviousJobs, ret in Hpipe.
  rewrite Hj, HL, Ho in Hpipe.
  assert (Hcreated : exists jid,
    s1 = set_audit (set_started (length objs) (audit sc))
           (add_events [ELog Info "Marlin Job Definition and Objects";
                        ECreateJob j; ELog Info "Created Job.";
                        EAddJobKey jid objs true;
                        ELog Info "Added objects to job"]
              (set_previousJobs
                 (Some (<[jid := mkJobRecord (clock env (ticks sc)) false]>
                          L7))
                 (set_ticks (S (ticks sc)) (set_jobId (Some jid) sc))))).
  { destruct (noJobStart opts) as [[]|]; [done| |];
      cbn [fst snd] in Hpipe;
      (destruct (createJob env j) as [e|jid];
       cbv beta iota delta [modify fail] in Hpipe;
       [discriminate Hpipe|]);
      (destruct (addJobKey env jid objs);
       cbv beta iota delta [modify fail] in Hpipe;
       [discriminate Hpipe|]);
      injection Hpipe as <-; exists jid; state_cbv. }
  destruct Hcreated as [jid ->].
  set (s1 := set_audit _ _).
  set (L := <[jid := mkJobRecord (clock env (ticks sc)) false]> L7).
  assert (Hp1 : previousJobs s1 = Some L) by (by destruct sc).
  rewrite pipelineDone_recorded by done.
  destruct (recordAndReport_run env opts None s1 L Hp1)
    as (s2 & -> & Ht & Hs & _ & H1 & H2 & H3).
  exists jid, objs, L, (mkJobRecord (clock env (ticks sc)) false).
  cbn [fst snd].
  split; [by destruct sc|]. split; [done|]. split; [done|].
  split.
  { subst s1. destruct sc; simpl. rewrite !elem_of_app. right.
    do 3 right. left. }
  split; [done|]. split; [subst L; apply lookup_insert_eq|].
  split; [done|]. split; [done|].
  split; [rewrite H1; by destruct sc|].
  split; [rewrite H2; by destruct sc|].
  split; [by rewrite H3|].
  split; [|done].
  rewrite Ht, !elem_of_app. right. right. left. left.
Qed.

End RunMore.

(** ** The job definition, the directories, the asset *)

Section Setup.

Variable env : Env.
Variable opts : Opts.

(** The phases as [opts.job] gets them. *)
Lemma invokeGetJobDefinition_run (s : State) (j : JobDef) :
  getJobDefinition env = inr j ->
  let ps := match truthy (assetObject opts) with
            | Some a => map (addAsset a) (phases j)
            | None => phases j
            end in
  invokeGetJobDefinition env opts s
  = match truthy (def_name j) with
    | Some n =>
        if decide (n = jobName opts)
        then (Ok tt, set_job (Some (mkJobDef (Some n) ps))
                       (add_events [EGetJobDefinition] s))
        else (Fail (newError "Given job name doesn't match opts.jobName."),
              add_events [EGetJobDefinition] s)
    | None =>
        (Ok tt, set_job (Some (mkJobDef (Some (jobName opts)) ps))
                  (add_events [EGetJobDefinition] s))
    end.
Proof.
  intros Hdef ps. unfold invokeGetJobDefinition.
  unfold mbind, M_bind, bind. rewrite emit_run, Hdef. fold ps.
  destruct (truthy (def_name j)) as [n|]; [|done].
  by destruct (decide (n = jobName opts)).
Qed.

Lemma truthy_None (o : option string) :
  truthy o = None <-> o = None \/ o = Some "".
Proof.
  unfold truthy. destruct o as [v|]; [|by split; auto].
  destruct (decide (v = "")) as [->|Hv].
  - split; auto.
  - split; [done|]. intros [?|[= ?]]; done.
Qed.

Lemma truthy_Some (o : option string) (n : string) :
  truthy o = Some n <-> o = Some n /\ n <> "".
Proof.
  unfold truthy. destruct o as [v|]; [|by split; [|intros []]].
  destruct (decide (v = "")) as [->|Hv].
  - split; [done|]. by intros [[= <-] ?].
  - split; [by intros [= <-]|]. by intros [[= <-] _].
Qed.

(** X11: the name of the job definition.  The caller's definition is
    accepted exactly when it has no name, an empty name, or the name
    [opts.jobName]; the definition kept in [opts.job] then carries
    [opts.jobName] and as many phases as the caller gave.  A definition
    with another name is refused and [opts.job] stays as it was. *)
Theorem job_definition_name_rule (s : State) (j : JobDef) :
  getJobDefinition env = inr j ->
  (fst (invokeGetJobDefinition env opts s) = Ok tt <->
   def_name j = None \/ def_name j = Some "" \/
   def_name j = Some (jobName opts)) /\
  (fst (invokeGetJobDefinition env opts s) = Ok tt ->
   exists d, job (snd (invokeGetJobDefinition env opts s)) = Some d /\
             def_name d = Some (jobName opts) /\
             length (phases d) = length (phases j)) /\
  (fst (invokeGetJobDefinition env opts s) <> Ok tt ->
   job (snd (invokeGetJobDefinition env opts s)) = job s).
Proof.
  intros Hdef. rewrite (invokeGetJobDefinition_run s j Hdef).
  assert (Hlen : forall ps : list Phase,
    length (match truthy (assetObject opts) with
            | Some a => map (addAsset a) ps
            | None => ps
            end) = length ps).
  { intros ps. destruct (truthy (assetObject opts)); [|done].
    apply length_map. }
  destruct (truthy (def_name j)) as [n|] eqn:Hn.
  - apply truthy_Some in Hn as [Hn Hne].
    destruct (decide (n = jobName opts)) as [->|Hne']; cbn [fst snd].
    + split; [split; [auto|done]|]. split; [|done].
      intros _. eexists. split; [reflexivity|]. split; [done|]. apply Hlen.
    + split; [|split; [done|by destruct s]].
      split; [done|]. rewrite Hn. intros [?|[?|?]]; congruence.
  - apply truthy_None in Hn. cbn [fst snd].
    split; [split; [tauto|done]|]. split; [|done].
    intros _. eexists. split; [reflexivity|]. split; [done|]. apply Hlen.
Qed.

Lemma push_new_spec (a : string) (l : list string) :
  a ∈ push_new a l /\ l `prefix_of` push_new a l /\
  (a ∈ l -> push_new a l = l) /\
  (NoDup l -> NoDup (push_new a l)) /\
  (forall x, x ∈ push_new a l <-> x ∈ l \/ x = a).
Proof.
  unfold push_new. destruct (decide (a ∈ l)) as [Hin|Hnin].
  - split; [done|]. split; [done|]. split; [done|]. split; [done|].
    intros x. split; [auto|]. by intros [?| ->].
  - split; [apply elem_of_app; right; left|].
    split; [by apply prefix_app_r|]. split; [done|]. split.
    + intros Hnd. apply NoDup_app. split; [done|].
      split; [|apply NoDup_singleton].
      intros x Hx ->%list_elem_of_singleton. done.
    + intros x. rewrite elem_of_app, list_elem_of_singleton. tauto.
Qed.

(** X12: the asset in the phases.  With a non-empty [opts.assetObject],
    every phase of the accepted definition lists the asset: the assets
    the caller gave come first, unchanged; the asset is appended when it
    is not among them and the list is left alone when it is, so no
    duplicate is added.  Without [opts.assetObject] the phases are the
    caller's. *)
Theorem job_definition_asset_rule (s : State) (j : JobDef) :
  getJobDefinition env = inr j ->
  fst (invokeGetJobDefinition env opts s) = Ok tt ->
  exists d,
    job (snd (invokeGetJobDefinition env opts s)) = Some d /\
    match truthy (assetObject opts) with
    | None => phases d = phases j
    | Some a =>
        Forall2 (fun p p' =>
                   exists l', assets p' = Some l' /\ a ∈ l' /\
                     default [] (assets p) `prefix_of` l' /\
                     (a ∈ default [] (assets p) ->
                      l' = default [] (assets p)) /\
                     (NoDup (default [] (assets p)) -> NoDup l'))
                (phases j) (phases d)
    end.
Proof.
  intros Hdef. rewrite (invokeGetJobDefinition_run s j Hdef).
  assert (Hphases :
    match truthy (assetObject opts) with
    | None =>
        match truthy (assetObject opts) with
        | Some a => map (addAsset a) (phases j)
        | None => phases j
        end = phases j
    | Some a =>
        Forall2 (fun p p' =>
                   exists l', assets p' = Some l' /\ a ∈ l' /\
                     default [] (assets p) `prefix_of` l' /\
                     (a ∈ default [] (assets p) ->
                      l' = default [] (assets p)) /\
                     (NoDup (default [] (assets p)) -> NoDup l'))
                (phases j)
                match truthy (assetObject opts) with
                | Some a => map (addAsset a) (phases j)
                | None => phases j
                end
    end).
  { destruct (truthy (assetObject opts)) as [a|]; [|done].
    induction (phases j) as [|p ps IH]; [constructor|].
    rewrite map_cons. constructor; [|exact IH].
    destruct (push_new_spec a (default [] (assets p)))
      as (H1 & H2 & H3 & H4 & _).
    exists (push_new a (default [] (assets p))). by split. }
  destruct (truthy (def_name j)) as [n|].
  - destruct (decide (n = jobName opts)); cbn [fst snd]; [|done].
    intros _. eexists. split; [reflexivity|]. exact Hphases.
  - cbn [fst snd]. intros _. eexists. split; [reflexivity|]. exact Hphases.
Qed.

(** X13: the asset is uploaded only after [stat] has shown a regular
    file.  The stage puts exactly when [opts.assetFile] is set and
    [stat] answers a file, and then it puts that file under
    [opts.assetObject] and ends as the put does; without
    [opts.assetFile] it does nothing at all. *)
Theorem asset_uploaded_only_if_file (s : State) :
  (assetFile opts = None -> setupAssetObject env opts s = (Ok tt, s)) /\
  (forall f p sz,
      assetFile opts = Some f -> assetObject opts = Some p ->
      stat env f = inr (true, sz) ->
      fst (setupAssetObject env opts s)
      = match put_fault env p with
        | Some e => Fail e
        | None => Ok tt
        end) /\
  exists evs,
    trace (snd (setupAssetObject env opts s)) = trace s ++ evs /\
    forall p d, EPut p d ∈ evs <->
      exists f sz, assetFile opts = Some f /\ assetObject opts = Some p /\
                   stat env f = inr (true, sz) /\ d = Raw f.
Proof.
  unfold setupAssetObject. split; [by intros ->|].
  split.
  { intros f p sz -> -> Hstat. unfold put. munfold. simpl.
    rewrite Hstat. by destruct (put_fault env p). }
  destruct (assetFile opts) as [file|].
  2:{ exists []. split; [by rewrite app_nil_r|]. intros p d. split.
      - by intros ?%elem_of_nil.
      - by intros (f & sz & ? & _). }
  destruct (assetObject opts) as [p0|].
  2:{ exists []. split; [by rewrite app_nil_r|]. intros p d. split.
      - by intros ?%elem_of_nil.
      - by intros (f & sz & _ & ? & _). }
  unfold put. munfold. simpl.
  destruct (stat env file) as [e|[[] sz]] eqn:Hstat.
  - eexists [_; _]. split; [destruct s; simpl; by rewrite <- app_assoc|].
    intros p d. split.
    + intros Hin.
      repeat (apply elem_of_cons in Hin as [Hin|Hin]; [discriminate Hin|]).
      by apply elem_of_nil in Hin.
    + intros (f & sz & [= <-] & _ & ? & _). congruence.
  - exists [ELog Info "Setting up asset object."; EStat file;
            EPut p0 (Raw file)].
    split.
    { destruct (put_fault env p0); destruct s; simpl;
        by rewrite <- !app_assoc. }
    intros p d. split.
    + intros Hin.
      repeat (apply elem_of_cons in Hin as [Hin|Hin];
              [try discriminate Hin|]).
      * injection Hin as -> ->. by exists file, sz.
      * by apply elem_of_nil in Hin.
    + intros (f & sz' & [= <-] & [= <-] & _ & ->).
      do 2 right. left.
  - eexists [_; _]. split; [destruct s; simpl; by rewrite <- app_assoc|].
    intros p d. split.
    + intros Hin.
      repeat (apply elem_of_cons in Hin as [Hin|Hin]; [discriminate Hin|]).
      by apply elem_of_nil in Hin.
    + intros (f & sz' & [= <-] & _ & ? & _). congruence.
Qed.

Lemma insert_sorted_cond (x y : string) :
  (String.ltb y x || String.eqb y x = true -> str_le y x) /\
  (String.ltb y x || String.eqb y x = false -> str_le x y).
Proof.
  unfold str_le, String.leb, String.ltb. split.
  - intros [H|H]%orb_true_iff.
    + by destruct (String.compare y x).
    + apply String.eqb_eq in H as ->.
      pose proof (String.compare_antisym x x) as H.
      by destruct (String.compare x x).
  - intros [H1 H2]%orb_false_iff.
    rewrite String.compare_antisym.
    destruct (String.compare y x) eqn:Hc; simpl; done.
Qed.

Lemma insert_sorted_perm (x : string) (l : list string) :
  insert_sorted x l ≡ₚ x :: l.
Proof.
  induction l as [|y ys IH]; simpl; [done|].
  destruct (_ || _); [|done]. rewrite IH. apply Permutation_swap.
Qed.

Lemma sort_perm (l : list string) : sort l ≡ₚ l.
Proof.
  unfold sort. rewrite <- (reverse_Permutation l) at 2.
  induction (reverse l) as [|x xs IH]; simpl; [done|].
  by rewrite insert_sorted_perm, IH.
Qed.

Lemma insert_sorted_HdRel (x y : string) (l : list string) :
  str_le y x -> HdRel str_le y l -> HdRel str_le y (insert_sorted x l).
Proof.
  intros Hyx Hl. destruct l as [|z zs]; simpl; [by constructor|].
  destruct (_ || _); constructor; [by inversion Hl|done].
Qed.

Lemma insert_sorted_sorted (x : string) (l : list string) :
  Sorted str_le l -> Sorted str_le (insert_sorted x l).
Proof.
  induction l as [|y ys IH]; intros Hs; simpl.
  - by repeat constructor.
  - destruct (insert_sorted_cond x y) as [Ht Hf].
    destruct (_ || _) eqn:Hc.
    + inversion Hs; subst. constructor; [by apply IH|].
      apply insert_sorted_HdRel; [by apply Ht|done].
    + constructor; [done|]. constructor. by apply Hf.
Qed.

Lemma sort_sorted (l : list string) : Sorted str_le (sort l).
Proof.
  unfold sort. induction (reverse l) as [|x xs IH]; simpl.
  - constructor.
  - by apply insert_sorted_sorted.
Qed.

Lemma mkdir_run (d : string) (s : State) :
  mkdir env d s
  = (match mkdir_fault env d with
     | Some e => Fail e
     | None => Ok tt
     end, add_events [EMkdir d] s).
Proof.
  unfold mkdir. unfold mbind, M_bind, bind, callback. rewrite emit_run.
  by destruct (mkdir_fault env d).
Qed.

(** The [mkdir]s run in order and stop at the first that fails. *)
Lemma mkdirs_run (dirs : list string) (s : State) :
  (pipeline (map (mkdir env) dirs) s
   = (Ok tt, add_events (map EMkdir dirs) s) /\ all_made env dirs) \/
  (exists pre d post e,
      dirs = pre ++ d :: post /\ all_made env pre /\
      mkdir_fault env d = Some e /\
      pipeline (map (mkdir env) dirs) s
      = (Fail e, add_events (map EMkdir (pre ++ [d])) s)).
Proof.
  revert s. induction dirs as [|d ds IH]; intros s; simpl.
  - left. split; [|constructor]. unfold ret. by rewrite add_events_nil.
  - assert (Hstep :
      (mkdir env d ≫= λ _ : (), pipeline (map (mkdir env) ds)) s
      = match mkdir_fault env d with
        | Some e => (Fail e, add_events [EMkdir d] s)
        | None => pipeline (map (mkdir env) ds) (add_events [EMkdir d] s)
        end).
    { unfold mbind, M_bind, bind. rewrite mkdir_run.
      by destruct (mkdir_fault env d). }
    rewrite Hstep. clear Hstep.
    destruct (mkdir_fault env d) as [e|] eqn:Hd.
    + right. exists [], d, ds, e.
      split; [done|]. split; [constructor|]. by split.
    + destruct (IH (add_events [EMkdir d] s))
        as [[-> Hall]|(pre & d' & post & e & -> & Hall & Hd' & ->)].
      * left. rewrite add_events_app. split; [done|by constructor].
      * right. exists (d :: pre), d', post, e. rewrite add_events_app.
        split; [done|]. split; [by constructor|]. by split.
Qed.

Lemma omap_made_dir (dirs : list string) :
  omap made_dir (map EMkdir dirs) = dirs.
Proof. induction dirs as [|d ds IH]; simpl; [done|]. f_equal. exact IH. Qed.

(** X14: the directories.  The stage creates the directories it was
    given, the job root and, with a non-empty [opts.assetObject], the
    directory of the asset, and no other; it keeps them sorted in
    [opts.directories] and issues the [mkdir]s in that order.  It
    succeeds when every [mkdir] does; otherwise the first failing
    [mkdir] is the last one issued and its error is the error of the
    stage. *)
Theorem directories_created_in_order (s : State) :
  exists dirs evs,
    directories (snd (setupDirectories env opts s)) = Some dirs /\
    Sorted str_le dirs /\
    (forall d, d ∈ dirs <->
       d ∈ default [] (directories s) \/ d = jobRoot opts \/
       exists a, truthy (assetObject opts) = Some a /\ d = dirname env a) /\
    trace (snd (setupDirectories env opts s)) = trace s ++ evs /\
    ((fst (setupDirectories env opts s) = Ok tt /\
      omap made_dir evs = dirs /\ all_made env dirs) \/
     (exists pre d post e,
         dirs = pre ++ d :: post /\ all_made env pre /\
         mkdir_fault env d = Some e /\
         fst (setupDirectories env opts s) = Fail e /\
         omap made_dir evs = pre ++ [d])).
Proof.
  unfold setupDirectories.
  set (dirs2 := match truthy (assetObject opts) with
                | Some a =>
                    push_new (dirname env a)
                      (push_new (jobRoot opts) (default [] (directories s)))
                | None => push_new (jobRoot opts) (default [] (directories s))
                end).
  fold dirs2.
  set (s1 := add_events [ELog Info "Creating directories."]
               (set_directories (Some (sort dirs2)) s)).
  change ((get ≫= λ s0 : State, _) s)
    with (pipeline (map (mkdir env) (sort dirs2)) s1).
  assert (Hs1 : directories s1 = Some (sort dirs2) /\
                trace s1 = trace s ++ [ELog Info "Creating directories."])
    by (by destruct s).
  destruct Hs1 as [Hd1 Ht1].
  assert (Hmem : forall d, d ∈ sort dirs2 <->
    d ∈ default [] (directories s) \/ d = jobRoot opts \/
    exists a, truthy (assetObject opts) = Some a /\ d = dirname env a).
  { intros d. rewrite (sort_perm dirs2). subst dirs2.
    destruct (truthy (assetObject opts)) as [a|].
    - destruct (push_new_spec (dirname env a)
                  (push_new (jobRoot opts) (default [] (directories s))))
        as (_ & _ & _ & _ & H1).
      destruct (push_new_spec (jobRoot opts) (default [] (directories s)))
        as (_ & _ & _ & _ & H2).
      rewrite H1, H2. split.
      + intros [[?|?]|?]; [auto|auto|]. right. right. by exists a.
      + intros [?|[?|(a' & [= <-] & ?)]]; auto.
    - destruct (push_new_spec (jobRoot opts) (default [] (directories s)))
        as (_ & _ & _ & _ & H2).
      rewrite H2. split; [intros [?|?]; auto|].
      intros [?|[?|(a' & ? & _)]]; [auto|auto|done]. }
  assert (Hkeep : forall evs r,
    pipeline (map (mkdir env) (sort dirs2)) s1 = (r, add_events evs s1) ->
    directories (snd (pipeline (map (mkdir env) (sort dirs2)) s1))
    = Some (sort dirs2) /\
    trace (snd (pipeline (map (mkdir env) (sort dirs2)) s1))
    = trace s ++ ELog Info "Creating directories." :: evs).
  { intros evs r ->. cbn [snd]. split; [by destruct s|].
    rewrite trace_add_events, Ht1. by rewrite <- app_assoc. }
  exists (sort dirs2).
  destruct (mkdirs_run (sort dirs2) s1)
    as [[Hrun Hall]|(pre & d & post & e & Hsplit & Hall & Hd & Hrun)].
  - destruct (Hkeep _ _ Hrun) as [K1 K2].
    eexists. split; [exact K1|]. split; [apply sort_sorted|].
    split; [exact Hmem|]. split; [exact K2|]. left.
    rewrite Hrun. split; [done|]. split; [|done].
    simpl. apply omap_made_dir.
  - destruct (Hkeep _ _ Hrun) as [K1 K2].
    eexists. split; [exact K1|]. split; [apply sort_sorted|].
    split; [exact Hmem|]. split; [exact K2|]. right.
    exists pre, d, post, e. rewrite Hrun.
    repeat split; try done. simpl. apply omap_made_dir.
Qed.

End Setup.

(** ** The running jobs *)

Section Running.

Variable env : Env.
Variable opts : Opts.

(** The walk over the listed jobs: fetches in the order of the listing,
    up to the first failure. *)
Lemma getNextJob_run (names : list string) (acc : list RemoteJob)
    (s : State) :
  (exists ids jobs,
      walked names ids /\ fetches env ids jobs /\
      getNextJob env names acc s
      = (Ok (acc ++ jobs), add_events (map EGetJob ids) s)) \/
  (exists ids jobs id e,
      (ids ++ [id]) `prefix_of` names /\ fetches env ids jobs /\
      getJob env id = inl e /\
      getNextJob env names acc s
      = (Fail e, add_events (map EGetJob (ids ++ [id])) s)).
Proof.
  revert acc s. induction names as [|n ns IH]; intros acc s; simpl.
  - left. exists [], []. split; [by exists []; auto|]. split; [constructor|].
    unfold ret. by rewrite app_nil_r, add_events_nil.
  - destruct (decide (n = "")) as [->|Hn].
    + left. exists [], []. split; [exists ("" :: ns); auto|].
      split; [constructor|].
      unfold ret. by rewrite app_nil_r, add_events_nil.
    + assert (Hstep :
        (getJobStatus env n ≫= λ j, getNextJob env ns (acc ++ [j])) s
        = match getJob env n with
          | inl e => (Fail e, add_events [EGetJob n] s)
          | inr j => getNextJob env ns (acc ++ [j]) (add_events [EGetJob n] s)
          end).
      { unfold mbind, M_bind, bind. rewrite getJobStatus_run.
        by destruct (getJob env n). }
      rewrite Hstep. clear Hstep.
      destruct (getJob env n) as [e|j] eqn:Hj.
      * right. exists [], [], n, e. split; [by exists ns|].
        split; [constructor|]. by split.
      * destruct (IH (acc ++ [j]) (add_events [EGetJob n] s))
          as [(ids & jobs & (rest & -> & Hne & Hrest) & Hf & ->)
             |(ids & jobs & id & e & [rest Hpre] & Hf & He & ->)].
        -- left. exists (n :: ids), (j :: jobs).
           split; [exists rest; split; [done|]; split; [by constructor|done]|].
           split; [by constructor|].
           by rewrite add_events_app, <- app_assoc.
        -- right. exists (n :: ids), (j :: jobs), id, e.
           split; [exists rest; simpl; by rewrite Hpre|].
           split; [by constructor|]. split; [done|].
           by rewrite add_events_app.
Qed.

Lemma walked_elem_of (names ids : list string) (id : string) :
  walked names ids -> id ∈ ids -> id ∈ names.
Proof. intros (rest & -> & _) Hin. apply elem_of_app. by left. Qed.

Lemma fetches_elem_of (ids : list string) (jobs : list RemoteJob)
    (j : RemoteJob) :
  fetches env ids jobs -> j ∈ jobs ->
  exists id, id ∈ ids /\ getJob env id = inr j.
Proof.
  intros Hf Hj. induction Hf as [|id j' ids jobs Hid _ IH].
  - by apply elem_of_nil in Hj.
  - apply elem_of_cons in Hj as [->|Hj].
    + exists id. split; [left|done].
    + destruct (IH Hj) as (id' & ? & ?). exists id'. split; [by right|done].
Qed.

Lemma omap_cancelled_fetches (ids : list string) :
  omap cancelled_id (map EGetJob ids) = [].
Proof. induction ids as [|i tl IH]; simpl; [done|]. exact IH. Qed.

(** What [checkRunningJobs] does, by the outcome of the listing and of
    the fetches. *)
Lemma checkRunningJobs_cases (s : State) :
  (exists e,
      listJobs env (jobName opts) = inl e /\
      checkRunningJobs env opts s
      = (Fail e, add_events [EListJobs (jobName opts)] s)) \/
  (exists names ids jobs id e,
      listJobs env (jobName opts) = inr names /\
      (ids ++ [id]) `prefix_of` names /\ fetches env ids jobs /\
      getJob env id = inl e /\
      checkRunningJobs env opts s
      = (Fail e,
         add_events (EListJobs (jobName opts) :: map EGetJob (ids ++ [id]))
           s)) \/
  (exists names ids jobs s1,
      listJobs env (jobName opts) = inr names /\
      walked names ids /\ fetches env ids jobs /\
      getNextJob env names [] (add_events [EListJobs (jobName opts)] s)
      = (Ok jobs, s1) /\
      s1 = add_events (EListJobs (jobName opts) :: map EGetJob ids) s).
Proof.
  destruct (listJobs env (jobName opts)) as [e|names] eqn:Hlist.
  - left. exists e. split; [done|].
    unfold checkRunningJobs, findRunningJobs.
    unfold mbind, M_bind, bind. by rewrite emit_run, Hlist.
  - right.
    destruct (getNextJob_run names []
                (add_events [EListJobs (jobName opts)] s))
      as [(ids & jobs & Hw & Hf & Hrun)
         |(ids & jobs & id & e & Hpre & Hf & He & Hrun)].
    + right. rewrite add_events_app in Hrun.
      exists names, ids, jobs,
        (add_events (EListJobs (jobName opts) :: map EGetJob ids) s).
      split; [done|]. split; [done|]. split; [done|]. by split.
    + left. exists names, ids, jobs, id, e.
      split; [done|]. split; [done|]. split; [done|]. split; [done|].
      unfold checkRunningJobs, findRunningJobs.
      unfold mbind, M_bind, bind. rewrite emit_run, Hlist, Hrun.
      by rewrite add_events_app.
Qed.

Lemma checkRunningJobs_fetched (s s1 : State) (names : list string)
    (jobs : list RemoteJob) :
  listJobs env (jobName opts) = inr names ->
  getNextJob env names [] (add_events [EListJobs (jobName opts)] s)
  = (Ok jobs, s1) ->
  match runningJobs jobs with
  | [] =>
      checkRunningJobs env opts s
      = (Ok tt, add_events [ELog Info "No running jobs, continuing..."] s1)
  | [j] =>
      if job_inputDone j then
        exists s2,
          checkRunningJobs env opts s = (Fail alreadyRunning, s2) /\
          trace s2 = trace s1 ++ [ELog Info "Job already running."]
      else
        checkRunningJobs env opts s
        = (match cancelJob env (job_id j) with
           | None => Ok tt
           | Some e => Fail e
           end,
           add_events [ECancelJob (job_id j);
                       ELog Info "Attempted to cancel job."] s1)
  | _ :: _ :: _ =>
      checkRunningJobs env opts s
      = (Fail (newError "more than one job with name found"),
         add_events [ELog Error "more than one job with name found"] s1)
  end.
Proof.
  intros Hlist Hfetch.
  unfold checkRunningJobs, findRunningJobs, checkResults.
  unfold mbind, M_bind, bind. rewrite emit_run, Hlist, Hfetch.
  destruct (runningJobs jobs) as [|j [|j' rest]].
  - reflexivity.
  - simpl. destruct (job_inputDone j); simpl.
    + eexists. split; [reflexivity|]. by destruct s1.
    + unfold callback. destruct (cancelJob env (job_id j)); munfold;
        f_equal; state_eq s1.
  - done.
Qed.

Lemma getNextJob_fetches (names : list string) (jobs acc : list RemoteJob)
    (s : State) :
  Forall (fun id => id <> "") names ->
  fetches env names jobs ->
  getNextJob env names acc s
  = (Ok (acc ++ jobs), add_events (map EGetJob names) s).
Proof.
  intros Hne Hf. revert acc s Hne.
  induction Hf as [|id j names jobs Hj _ IH]; intros acc s Hne.
  - simpl. unfold ret. by rewrite app_nil_r, add_events_nil.
  - apply Forall_cons in Hne as [Hid Hne]. cbn [getNextJob].
    rewrite decide_False by done.
    unfold mbind, M_bind, bind. rewrite getJobStatus_run, Hj.
    rewrite (IH (acc ++ [j]) _ Hne), add_events_app, <- app_assoc.
    reflexivity.
Qed.

(** C5: what [checkRunningJobs] does with the jobs of the name, once
    the listing is fetched job by job, by the fetched jobs whose state
    is not [done].  None: the check succeeds.  One, its input still
    open: a cancel is issued for that job and the check ends as the
    cancel does.  One, its input done: the seconds since the job was
    created, [Math.round(now / 1000 - started / 1000)], are stored in
    the audit and the check fails with the error marked
    [shouldNotFatal].  More than one: the check fails with an unmarked
    error and issues no call. *)
Theorem checkRunningJobs_classifies (s : State) (names : list string)
    (jobs : list RemoteJob) :
  listJobs env (jobName opts) = inr names ->
  Forall (fun id => id <> "") names ->
  Forall2 (fun id j => getJob env id = inr j) names jobs ->
  let s1 := add_events (EListJobs (jobName opts) :: map EGetJob names) s in
  match filter (fun j => job_state j <> "done") jobs with
  | [] =>
      checkRunningJobs env opts s =
      (Ok tt, add_events [ELog Info "No running jobs, continuing..."] s1)
  | [j] =>
      if job_inputDone j then
        checkRunningJobs env opts s =
        (Fail alreadyRunning,
         add_events [ELog Info "Job already running."]
           (set_audit
              (set_currentJobSecondsRunning
                 (Math_round
                    (number_sub
                       (number_div (number_of_Z (clock env (ticks s1)))
                                   (number_of_Z 1000))
                       (number_div (number_of_Z (job_timeCreated j))
                                   (number_of_Z 1000))))
                 (audit s1))
              (set_ticks (S (ticks s1)) s1)))
        /\ err_shouldNotFatal alreadyRunning = Some true
      else
        checkRunningJobs env opts s =
        (match cancelJob env (job_id j) with
         | None => Ok tt
         | Some e => Fail e
         end,
         add_events [ECancelJob (job_id j);
                     ELog Info "Attempted to cancel job."] s1)
  | _ :: _ :: _ =>
      checkRunningJobs env opts s =
      (Fail (newError "more than one job with name found"),
       add_events [ELog Error "more than one job with name found"] s1)
      /\ err_shouldNotFatal (newError "more than one job with name found")
         = None
  end.
Proof.
  intros Hlist Hne Hf s1.
  assert (Hfetch :
    getNextJob env names [] (add_events [EListJobs (jobName opts)] s)
    = (Ok jobs, s1)).
  { rewrite (getNextJob_fetches names jobs [] _ Hne Hf), add_events_app.
    reflexivity. }
  unfold checkRunningJobs, findRunningJobs, checkResults, runningJobs.
  unfold mbind, M_bind, bind. rewrite emit_run, Hlist, Hfetch.
  clearbody s1. clear Hfetch.
  destruct (filter _ jobs) as [|j [|j' rest]].
  - reflexivity.
  - unfold ret, seconds_between. cbv beta iota.
    destruct (job_inputDone j); cbn [negb].
    + split; reflexivity.
    + unfold callback. destruct (cancelJob env (job_id j)); munfold;
        f_equal; state_eq s1.
  - by split.
Qed.

Lemma runningJobs_singleton (jobs : list RemoteJob) (j : RemoteJob) :
  runningJobs jobs = [j] -> j ∈ jobs /\ job_state j <> "done".
Proof.
  intros H. assert (Hj : j ∈ runningJobs jobs) by (rewrite H; left).
  unfold runningJobs in Hj. by apply list_elem_of_filter in Hj as [? ?].
Qed.

(** X15: the cancel.  [checkRunningJobs] cancels at most one job in a
    run, and only a job of the listing that the job service reports as
    not done and with its input still open; the stage then ends as that
    cancel does. *)
Theorem at_most_one_cancel (s : State) :
  exists evs,
    trace (snd (checkRunningJobs env opts s)) = trace s ++ evs /\
    (omap cancelled_id evs = [] \/
     exists names id j,
       listJobs env (jobName opts) = inr names /\ id ∈ names /\
       getJob env id = inr j /\
       job_state j <> "done" /\ job_inputDone j = false /\
       omap cancelled_id evs = [job_id j] /\
       fst (checkRunningJobs env opts s)
       = match cancelJob env (job_id j) with
         | None => Ok tt
         | Some e => Fail e
         end).
Proof.
  destruct (checkRunningJobs_cases s)
    as [(e & _ & ->)
       |[(names & ids & jobs & id & e & _ & _ & _ & _ & ->)
        |(names & ids & jobs & s1 & Hlist & Hw & Hf & Hrun & Hs1)]].
  - eexists. cbn [snd]. rewrite trace_add_events. split; [done|]. by left.
  - eexists. cbn [snd]. rewrite trace_add_events. split; [done|]. left.
    simpl. apply omap_cancelled_fetches.
  - pose proof (checkRunningJobs_fetched s s1 names jobs Hlist Hrun) as Hc.
    assert (Ht1 : trace s1
                  = trace s ++ EListJobs (jobName opts) :: map EGetJob ids)
      by (by rewrite Hs1, trace_add_events).
    destruct (runningJobs jobs) as [|j [|j' rest]] eqn:Hr.
    + rewrite Hc. cbn [snd]. rewrite trace_add_events, Ht1, <- app_assoc.
      eexists. split; [done|]. left. simpl.
      rewrite omap_app, omap_cancelled_fetches. done.
    + destruct (runningJobs_singleton jobs j Hr) as [Hj Hstate].
      destruct (fetches_elem_of ids jobs j Hf Hj) as (id & Hid & Hget).
      destruct (job_inputDone j) eqn:Hin.
      * destruct Hc as (s2 & -> & Ht2). cbn [snd].
        rewrite Ht2, Ht1, <- app_assoc.
        eexists. split; [done|]. left. simpl.
        rewrite omap_app, omap_cancelled_fetches. done.
      * rewrite Hc. cbn [fst snd].
        rewrite trace_add_events, Ht1, <- app_assoc.
        eexists. split; [done|]. right. exists names, id, j.
        repeat split; try done; [by eapply walked_elem_of|].
        simpl. rewrite omap_app, omap_cancelled_fetches. done.
    + rewrite Hc. cbn [snd]. rewrite trace_add_events, Ht1, <- app_assoc.
      eexists. split; [done|]. left. simpl.
      rewrite omap_app, omap_cancelled_fetches. done.
Qed.

(** X16: the check lets the run go on only when no job of the name is
    left running.  When [checkRunningJobs] succeeds, the jobs were
    listed, every job of the listing (up to the first empty name) was
    fetched in the order of the listing, and either all of them are
    done or the only one that is not has its input open and its cancel
    succeeded. *)
Theorem check_passes_only_without_live_job (s : State) :
  fst (checkRunningJobs env opts s) = Ok tt ->
  exists names ids jobs,
    listJobs env (jobName opts) = inr names /\
    walked names ids /\ fetches env ids jobs /\
    omap fetched_id
      (drop (length (trace s)) (trace (snd (checkRunningJobs env opts s))))
    = ids /\
    (Forall (fun j => job_state j = "done") jobs \/
     exists j,
       runningJobs jobs = [j] /\ job_inputDone j = false /\
       cancelJob env (job_id j) = None).
Proof.
  intros Hok.
  destruct (checkRunningJobs_cases s)
    as [(e & _ & H)
       |[(names & ids & jobs & id & e & _ & _ & _ & _ & H)
        |(names & ids & jobs & s1 & Hlist & Hw & Hf & Hrun & Hs1)]];
    [by rewrite H in Hok|by rewrite H in Hok|].
  pose proof (checkRunningJobs_fetched s s1 names jobs Hlist Hrun) as Hc.
  assert (Ht1 : trace s1
                = trace s ++ EListJobs (jobName opts) :: map EGetJob ids)
    by (by rewrite Hs1, trace_add_events).
  assert (Hids : forall tl,
    omap fetched_id tl = [] ->
    omap fetched_id
      (drop (length (trace s))
         ((trace s ++ EListJobs (jobName opts) :: map EGetJob ids) ++ tl))
    = ids).
  { intros tl Htl. rewrite <- app_assoc, drop_app_length. simpl.
    rewrite omap_app, Htl, app_nil_r.
    clear. induction ids as [|i tl IH]; simpl; [done|]. f_equal. exact IH. }
  exists names, ids, jobs. split; [done|]. split; [done|]. split; [done|].
  destruct (runningJobs jobs) as [|j [|j' rest]] eqn:Hr.
  - rewrite Hc. cbn [snd]. rewrite trace_add_events, Ht1.
    split; [by apply Hids|]. left.
    apply Forall_forall. intros j Hj.
    destruct (decide (job_state j = "done")) as [|Hnd]; [done|].
    assert (Hin : j ∈ runningJobs jobs)
      by (unfold runningJobs; by apply list_elem_of_filter).
    rewrite Hr in Hin. by apply elem_of_nil in Hin.
  - destruct (job_inputDone j) eqn:Hin.
    + destruct Hc as (s2 & Hc & _). by rewrite Hc in Hok.
    + rewrite Hc in Hok |- *. cbn [fst snd] in *.
      rewrite trace_add_events, Ht1.
      split; [by apply Hids|]. right. exists j.
      split; [done|]. split; [done|].
      by destruct (cancelJob env (job_id j)).
  - by rewrite Hc in Hok.
Qed.

End Running.

(** ** The puts of the jobs object *)

Section Written.

Variable env : Env.
Variable opts : Opts.

Hypothesis Hasset :
  forall f p, assetFile opts = Some f -> assetObject opts = Some p ->
              p <> previousJobsObject opts.

Lemma omap_put_at_nil (evs : list Event) :
  Forall (not_writing (previousJobsObject opts)) evs ->
  omap (put_at (previousJobsObject opts)) evs = [].
Proof.
  induction 1 as [|ev evs Hev _ IH]; simpl; [done|].
  destruct ev; simpl in *; try exact IH.
  rewrite decide_False by done. exact IH.
Qed.

Lemma stages_not_writing :
  tame (not_writing (previousJobsObject opts)) (pipeline (stages env opts)).
Proof.
  apply tame_pipeline. unfold stages.
  repeat apply Forall_cons_2; [| | | | | | | |apply Forall_nil_2].
  - by apply tame_stopIfDisabled.
  - by apply tame_auditPreviousJobs.
  - by apply tame_checkRunningJobs.
  - by apply tame_setupDirectories.
  - by apply tame_setupAssetObject.
  - by apply tame_invokeGetJobObjects.
  - by apply tame_invokeGetJobDefinition.
  - by apply tame_createMarlinJob.
Qed.

Lemma pipelineDone_puts (err : option Err) (s : State) :
  exists evs,
    trace (snd (pipelineDone env opts err s)) = trace s ++ evs /\
    (omap (put_at (previousJobsObject opts)) evs = [] \/
     exists L,
       previousJobs (snd (pipelineDone env opts err s)) = Some L /\
       omap (put_at (previousJobsObject opts)) evs = [JSON_stringify L]).
Proof.
  assert (Haudit : forall s2,
    omap (put_at (previousJobsObject opts)) (audit_record opts s2) = []).
  { intros s2. unfold audit_record. by destruct (noJobStart opts) as [[]|]. }
  assert (Hrec : forall err,
    exists evs,
      trace (snd (recordAndReport env opts err s)) = trace s ++ evs /\
      (omap (put_at (previousJobsObject opts)) evs = [] \/
       exists L,
         previousJobs (snd (recordAndReport env opts err s)) = Some L /\
         omap (put_at (previousJobsObject opts)) evs = [JSON_stringify L])).
  { intros err'. destruct (previousJobs s) as [L|] eqn:HL.
    - destruct (recordAndReport_run env opts err' s L HL)
        as (s2 & -> & Ht & _ & Hp & _).
      cbn [snd]. eexists. split; [exact Ht|]. right. exists L.
      split; [done|].
      rewrite !omap_app, Haudit. simpl. rewrite decide_True by done.
      unfold fatal_log, save_log.
      destruct (fatal err'); simpl;
        destruct (put_fault env (previousJobsObject opts)) as [e2|]; simpl;
        try destruct (ignoredPutError e2); done.
    - unfold recordAndReport, recordJobs.
      unfold mbind, M_bind, bind, attempt, modify, log, emit, get, throw.
      destruct err' as [[nm msg code [snf|] cause]|]; simpl;
        rewrite HL; simpl.
      + exists []. rewrite app_nil_r. split; [by destruct s|by left].
      + eexists. split; [reflexivity|by left].
      + exists []. rewrite app_nil_r. split; [by destruct s|by left]. }
  unfold pipelineDone. destruct err as [e|]; [|apply Hrec].
  destruct (hasCauseWithName e jobDisabled) eqn:Hd; [|apply Hrec].
  destruct (pipelineDone_disabled env opts e s Hd) as (s2 & Hrun & Ht & _).
  unfold pipelineDone in Hrun. rewrite Hd in Hrun. rewrite Hrun.
  cbn [snd]. eexists. split; [exact Ht|]. left.
  simpl. apply Haudit.
Qed.

(** X17: the jobs object is written at most once in a run, at the end,
    and what is written is [opts.previousJobs] as the run leaves it.
    (The asset, when there is one, is not uploaded to the path of the
    jobs object.) *)
Theorem jobs_object_written_at_most_once (s : State) :
  exists evs,
    trace (snd (run env opts s)) = trace s ++ evs /\
    (omap (put_at (previousJobsObject opts)) evs = [] \/
     exists L,
       previousJobs (snd (run env opts s)) = Some L /\
       omap (put_at (previousJobsObject opts)) evs = [JSON_stringify L]).
Proof.
  rewrite run_unfold.
  destruct (stages_not_writing (started env s)) as [_ (evs & Hevs & HQ)].
  destruct (started_trace env s) as [Htr _]. rewrite Htr in Hevs.
  pose proof (omap_put_at_nil evs HQ) as Hnil.
  destruct (pipeline (stages env opts) (started env s)) as [[[]|e|] s1];
    cbn [fst snd] in *.
  - destruct (pipelineDone_puts None s1) as (evs' & Ht & Hput).
    exists (evs ++ evs'). rewrite Ht, Hevs, app_assoc. split; [done|].
    by rewrite omap_app, Hnil.
  - destruct (pipelineDone_puts (Some e) s1) as (evs' & Ht & Hput).
    exists (evs ++ evs'). rewrite Ht, Hevs, app_assoc. split; [done|].
    by rewrite omap_app, Hnil.
  - exists evs. split; [done|by left].
Qed.

End Written.

(** ** A run that starts no job *)

Section DryRun.

Variable env : Env.
Variable opts : Opts.

Hypothesis Hdry : noJobStart opts = Some true.

Lemma stages_dry : tame dry_event (pipeline (stages env opts)).
Proof.
  apply tame_pipeline. unfold stages.
  repeat apply Forall_cons_2; [| | | | | | | |apply Forall_nil_2].
  - by apply tame_stopIfDisabled.
  - by apply tame_auditPreviousJobs.
  - by apply tame_checkRunningJobs.
  - by apply tame_setupDirectories.
  - by apply tame_setupAssetObject.
  - by apply tame_invokeGetJobObjects.
  - by apply tame_invokeGetJobDefinition.
  - by apply tame_createMarlinJob_dry.
Qed.

Lemma createMarlinJob_dry_audit (s : State) :
  audit (snd (createMarlinJob env opts s)) = audit s.
Proof.
  unfold createMarlinJob. unfold mbind, M_bind, bind, get, log, emit, modify.
  rewrite Hdry. destruct s as [st tk pj dirs objs jb jid au tr].
  cbn [job]. by destruct jb.
Qed.

Lemma stages_dry_started (s0 : State) :
  startedJob (audit (snd (pipeline (stages env opts) s0)))
  = startedJob (audit s0) /\
  numberOfObjects (audit (snd (pipeline (stages env opts) s0)))
  = numberOfObjects (audit s0).
Proof.
  change (stages env opts)
    with (take 7 (stages env opts) ++ [createMarlinJob env opts]).
  rewrite pipeline_app.
  destruct (prefix_started env opts s0) as [P1 P2].
  destruct (pipeline (take 7 (stages env opts)) s0) as [[[]|e|] s1];
    cbn [fst snd] in *; [|done|done].
  change (pipeline [createMarlinJob env opts] s1)
    with (bind (createMarlinJob env opts) (fun _ => ret tt) s1).
  unfold bind. pose proof (createMarlinJob_dry_audit s1) as Ha.
  destruct (createMarlinJob env opts s1) as [[[]|e|] s2];
    cbn [fst snd] in *; unfold ret; cbn [snd]; by rewrite Ha.
Qed.

(** X18: a run with [noJobStart] starts nothing.  Whatever the stages
    do, the run issues neither [createJob] nor [addJobKey] and logs no
    audit record of the run; its audit keeps [startedJob] 0 and no
    [numberOfObjects]. *)
Theorem dry_run_starts_nothing (s : State) :
  exists evs,
    trace (snd (run env opts s)) = trace s ++ evs /\
    Forall dry_event evs /\
    startedJob (audit (snd (run env opts s))) = 0 /\
    numberOfObjects (audit (snd (run env opts s))) = None.
Proof.
  rewrite run_unfold.
  destruct (stages_dry (started env s)) as [_ (evs & Hevs & HQ)].
  destruct (stages_dry_started (started env s)) as [P1 P2].
  destruct (started_trace env s) as [Htr _]. rewrite Htr in Hevs.
  assert (Hend : forall err s1,
    trace s1 = trace s ++ evs ->
    startedJob (audit s1) = startedJob (audit (started env s)) ->
    numberOfObjects (audit s1) = numberOfObjects (audit (started env s)) ->
    exists evs0,
      trace (snd (pipelineDone env opts err s1)) = trace s ++ evs0 /\
      Forall dry_event evs0 /\
      startedJob (audit (snd (pipelineDone env opts err s1))) = 0 /\
      numberOfObjects (audit (snd (pipelineDone env opts err s1))) = None).
  { intros err s1 Ht Q1 Q2.
    assert (Hd : tame dry_event (pipelineDone env opts err))
      by (by apply tame_pipelineDone_dry).
    destruct (Hd s1) as [_ (evs' & Hevs' & HQ')].
    destruct (pipelineDone_started env opts err s1) as [D1 D2].
    exists (evs ++ evs'). rewrite Hevs', Ht, app_assoc.
    split; [done|]. split; [by apply Forall_app|].
    rewrite D1, D2, Q1, Q2. by destruct s. }
  destruct (pipeline (stages env opts) (started env s)) as [[[]|e|] s1];
    cbn [fst snd] in *.
  - by apply Hend.
  - by apply Hend.
  - exists evs. split; [done|]. split; [done|].
    rewrite P1, P2. by destruct s.
Qed.

End DryRun.

(** * Concrete runs *)

(** ** C1 *)

(** C1 fails on the code: with all jobs disabled the pipeline ends with
    the [JobDisabled] error, no put is issued and the callback gets no
    error. *)
Lemma disabled_run_not_persisted :
  (exists e, fst (pipeline (stages plainWorld gcOff) (started plainWorld (fresh ∅)))
             = Fail e) /\
  fst (run plainWorld gcOff (fresh ∅)) = Ok None /\
  forall p d, EPut p d ∉ trace (snd (run plainWorld gcOff (fresh ∅))).
Proof.
  split; [by eexists|]. split; [reflexivity|].
  intros p d Hin.
  change (trace (snd (run plainWorld gcOff (fresh ∅))))
    with [ELog Info "all jobs are disabled";
          ERunAudit (mkAudit 0 1 0 (Some 0) (Some 0) None None)] in Hin.
  repeat (apply elem_of_cons in Hin as [Hin|Hin]; [discriminate Hin|]).
  by apply elem_of_nil in Hin.
Qed.

Lemma run_finalization_witness :
  (fst (run plainWorld gcOpts (fresh ∅)) = Ok None /\
   trace (snd (run plainWorld gcOpts (fresh ∅)))
   = trace (snd (pipeline (stages plainWorld gcOpts)
                   (started plainWorld (fresh ∅))))
     ++ [EPut gcPath (Json {[ "job-2" := mkJobRecord 0 false ]});
         ERunAudit (audit (snd (run plainWorld gcOpts (fresh ∅))))])
  /\
  (fst (run plainWorld gcNoAssetObject (fresh ∅)) = Throw /\
   forall p d, EPut p d ∉ trace (snd (run plainWorld gcNoAssetObject (fresh ∅)))).
Proof.
  split.
  - pose proof (run_finalization plainWorld gcOpts (fresh ∅)) as H.
    cbv zeta in H.
    change (fst (pipeline (stages plainWorld gcOpts)
                   (started plainWorld (fresh ∅))))
      with (@Ok unit tt) in H.
    cbv beta iota in H. destruct H as (Hcb & L & HL & Ht & _).
    split; [exact Hcb|]. rewrite Ht.
    assert (L = {[ "job-2" := mkJobRecord 0 false ]}) as ->.
    { vm_compute in HL. injection HL as <-. vm_compute. reflexivity. }
    reflexivity.
  - pose proof (run_finalization plainWorld gcNoAssetObject (fresh ∅)) as H.
    cbv zeta in H.
    change (fst (pipeline (stages plainWorld gcNoAssetObject)
                   (started plainWorld (fresh ∅))))
      with (@Throw unit) in H.
    cbv beta iota in H. destruct H as (_ & Hcb & Hs).
    split; [exact Hcb|]. rewrite Hs. intros p d Hin.
    vm_compute in Hin.
    repeat (apply elem_of_cons in Hin as [Hin|Hin]; [discriminate Hin|]).
    by apply elem_of_nil in Hin.
Defined.

(** ** C2 *)

(** C2 fails on the code: the stored document does not parse, and the
    run replaces it by the empty jobs object. *)
Lemma corrupt_ledger_overwritten :
  store (fresh corruptStore) !! gcPath = Some (Raw "{oops") /\
  fst (run plainWorld gcOpts (fresh corruptStore)) = Ok (Some syntaxError) /\
  store (snd (run plainWorld gcOpts (fresh corruptStore))) !! gcPath
  = Some (Json ∅).
Proof. repeat split; vm_compute; reflexivity. Qed.

Lemma corrupt_ledger_run_witness :
  enabled gcOpts = true /\
  getObject_fault plainWorld (previousJobsObject gcOpts) = None /\
  store (fresh corruptStore) !! previousJobsObject gcOpts = Some (Raw "{oops")
  /\
  fst (run plainWorld gcOpts (fresh corruptStore)) = Ok (Some syntaxError) /\
  store (snd (run plainWorld gcOpts (fresh corruptStore)))
  = stored plainWorld gcOpts ∅ corruptStore.
Proof.
  assert (H1 : enabled gcOpts = true) by reflexivity.
  assert (H2 : getObject_fault plainWorld (previousJobsObject gcOpts) = None)
    by reflexivity.
  assert (H3 : store (fresh corruptStore) !! previousJobsObject gcOpts
               = Some (Raw "{oops")) by (vm_compute; reflexivity).
  destruct (corrupt_ledger_run plainWorld gcOpts (fresh corruptStore) "{oops"
              H1 H2 H3) as (Hcb & _ & _ & Hst & _).
  repeat split; assumption.
Defined.

(** ** C3 *)

(** C3 fails on the code: the caller has no objects, the pipeline ends
    with the error marked [shouldNotFatal], and the callback gets that
    error. *)
Lemma no_objects_error_reaches_callback :
  fst (pipeline (stages noObjectsWorld gcOpts)
         (started noObjectsWorld (fresh ∅))) = Fail noObjects /\
  err_shouldNotFatal noObjects = Some true /\
  fst (run noObjectsWorld gcOpts (fresh ∅)) = Ok (Some noObjects).
Proof. repeat split; vm_compute; reflexivity. Qed.

Lemma run_error_propagation_witness :
  fst (run noObjectsWorld gcOpts (fresh ∅)) = Ok (Some noObjects) /\
  cronFailed (audit (snd (run noObjectsWorld gcOpts (fresh ∅)))) = 0 /\
  forall m, ELog Fatal m ∉ trace (snd (run noObjectsWorld gcOpts (fresh ∅))).
Proof.
  destruct (run_error_propagation noObjectsWorld gcOpts (fresh ∅))
    as [_ H].
  cbv zeta in H.
  change (fst (pipeline (stages noObjectsWorld gcOpts)
                 (started noObjectsWorld (fresh ∅))))
    with (@Fail unit noObjects) in H.
  change (hasCauseWithName noObjects jobDisabled) with false in H.
  change (err_shouldNotFatal noObjects) with (Some true) in H.
  cbv beta iota in H. destruct H as (Hcb & Hc & L & _ & Ht).
  split; [exact Hcb|]. split; [exact Hc|].
  intros m Hin. rewrite Ht in Hin. vm_compute in Hin.
  repeat (apply elem_of_cons in Hin as [Hin|Hin]; [discriminate Hin|]).
  by apply elem_of_nil in Hin.
Defined.

(** ** C4 *)



(** ** C5 *)

Lemma checkRunningJobs_classifies_witness :
  (checkRunningJobs plainWorld gcOpts (fresh ∅)
   = (Ok tt, add_events [EListJobs "gc";
                         ELog Info "No running jobs, continuing..."]
               (fresh ∅)))
  /\
  (fst (checkRunningJobs openInputWorld gcOpts (fresh ∅)) = Ok tt /\
   ECancelJob "job-9"
     ∈ trace (snd (checkRunningJobs openInputWorld gcOpts (fresh ∅))))
  /\
  (fst (checkRunningJobs liveWorld gcOpts (fresh ∅)) = Fail alreadyRunning /\
   currentJobSecondsRunning
     (audit (snd (checkRunningJobs liveWorld gcOpts (fresh ∅)))) = Some 60)
  /\
  (fst (checkRunningJobs earlyWorld gcOpts (fresh ∅)) = Fail alreadyRunning /\
   currentJobSecondsRunning
     (audit (snd (checkRunningJobs earlyWorld gcOpts (fresh ∅)))) = Some 0)
  /\
  (fst (checkRunningJobs twoLiveWorld gcOpts (fresh ∅))
   = Fail (newError "more than one job with name found") /\
   forall id,
     ECancelJob id
       ∉ trace (snd (checkRunningJobs twoLiveWorld gcOpts (fresh ∅)))).
Proof.
  assert (Hne9 : Forall (fun id : string => id <> "") ["job-9"])
    by (repeat constructor; discriminate).
  split; [|split; [|split; [|split]]].
  - exact (checkRunningJobs_classifies plainWorld gcOpts (fresh ∅) [] []
             eq_refl (List.Forall_nil _) (List.Forall2_nil _)).
  - pose proof (checkRunningJobs_classifies openInputWorld gcOpts (fresh ∅)
                  ["job-9"] [liveJob "job-9" false] eq_refl Hne9
                  (List.Forall2_cons _ _ eq_refl (List.Forall2_nil _))) as H.
    cbv zeta in H.
    change (filter _ [liveJob "job-9" false]) with [liveJob "job-9" false]
      in H.
    cbv beta iota in H. change (job_inputDone (liveJob "job-9" false))
      with false in H. cbv iota in H.
    rewrite H. split; [reflexivity|].
    vm_compute. do 2 right. left.
  - pose proof (checkRunningJobs_classifies liveWorld gcOpts (fresh ∅)
                  ["job-9"] [liveJob "job-9" true] eq_refl Hne9
                  (List.Forall2_cons _ _ eq_refl (List.Forall2_nil _))) as H.
    cbv zeta in H.
    change (filter _ [liveJob "job-9" true]) with [liveJob "job-9" true]
      in H.
    cbv beta iota in H. change (job_inputDone (liveJob "job-9" true))
      with true in H. cbv iota in H.
    destruct H as [H _]. rewrite H. split; [reflexivity|].
    vm_compute. reflexivity.
  - pose proof (checkRunningJobs_classifies earlyWorld gcOpts (fresh ∅)
                  ["job-9"] [earlyJob "job-9"] eq_refl Hne9
                  (List.Forall2_cons _ _ eq_refl (List.Forall2_nil _))) as H.
    cbv zeta in H.
    change (filter _ [earlyJob "job-9"]) with [earlyJob "job-9"] in H.
    cbv beta iota in H. change (job_inputDone (earlyJob "job-9"))
      with true in H. cbv iota in H.
    destruct H as [H _]. rewrite H. split; [reflexivity|].
    vm_compute. reflexivity.
  - assert (Hne : Forall (fun id : string => id <> "") ["job-8"; "job-9"])
      by (repeat constructor; discriminate).
    pose proof (checkRunningJobs_classifies twoLiveWorld gcOpts (fresh ∅)
                  ["job-8"; "job-9"]
                  [liveJob "job-8" true; liveJob "job-9" true] eq_refl Hne
                  (List.Forall2_cons _ _ eq_refl
                     (List.Forall2_cons _ _ eq_refl (List.Forall2_nil _))))
      as H.
    cbv zeta in H.
    change (filter _ [liveJob "job-8" true; liveJob "job-9" true])
      with [liveJob "job-8" true; liveJob "job-9" true] in H.
    cbv beta iota in H. destruct H as [H _]. rewrite H.
    split; [reflexivity|]. intros id Hin. vm_compute in Hin.
    repeat (apply elem_of_cons in Hin as [Hin|Hin]; [discriminate Hin|]).
    by apply elem_of_nil in Hin.
Defined.

(** ** C6 *)

(** C6: the marking loop takes [results.successes[i]] for the job of
    [jobsToAudit[i]], and vasync fills [successes] as the answers
    arrive.  Here [job-1] is done and [job-2] is running, both wait for
    their audit, and the answer for [job-2] arrives first: the audit of
    [job-1]'s job succeeds and the audit of [job-2]'s job fails, yet the
    entry of [job-1] is left un-audited and the entry of [job-2] is
    marked. *)
Theorem marking_pairs_entries_by_arrival :
  to_audit (map_to_list twoUnaudited) = ["job-1"; "job-2"] /\
  arrival outOfOrderWorld ["job-1"; "job-2"] = ["job-2"; "job-1"] /\
  (getJob outOfOrderWorld "job-1" = inr (doneJob "job-1") /\
   classified outOfOrderWorld (doneJob "job-1")) /\
  (getJob outOfOrderWorld "job-2" = inr (liveJob "job-2" true) /\
   ~ classified outOfOrderWorld (liveJob "job-2" true)) /\
  fst (auditParsed outOfOrderWorld twoUnaudited (fresh ∅)) = Ok tt /\
  previousJobs (snd (auditParsed outOfOrderWorld twoUnaudited (fresh ∅)))
  = Some {[ "job-1" := mkJobRecord 0 false;
            "job-2" := mkJobRecord 0 true ]}.
Proof.
  split; [vm_compute; reflexivity|]. split; [vm_compute; reflexivity|].
  split; [split; [reflexivity|intros s; reflexivity]|].
  split.
  { split; [reflexivity|]. intros Hc. specialize (Hc (fresh ∅)).
    discriminate Hc. }
  split; vm_compute; reflexivity.
Qed.

(** ** C7 *)


(** ** C8 *)



(** ** C9 *)

(** C9: with [job-1] done, [job-2] running and the answer for [job-2]
    arriving first, the first audit marks the entry of [job-2] and
    leaves that of [job-1]; a second audit, with the same answers of
    the job service and the same clock, fetches [job-1] alone and marks
    its entry: the jobs object changes again. *)
Theorem second_audit_changes_ledger :
  let L1 : Ledger := {[ "job-1" := mkJobRecord 0 false;
                        "job-2" := mkJobRecord 0 true ]} in
  let L2 : Ledger := {[ "job-1" := mkJobRecord 0 true;
                        "job-2" := mkJobRecord 0 true ]} in
  (forall n, clock outOfOrderWorld n = 0) /\
  previousJobs (snd (auditParsed outOfOrderWorld twoUnaudited (fresh ∅)))
  = Some L1 /\
  previousJobs (snd (auditParsed outOfOrderWorld L1 (fresh ∅))) = Some L2 /\
  L1 <> L2.
Proof.
  cbv zeta. split; [reflexivity|].
  split; [vm_compute; reflexivity|]. split; [vm_compute; reflexivity|].
  intros Heq.
  assert (H : ({[ "job-1" := mkJobRecord 0 false;
                  "job-2" := mkJobRecord 0 true ]} : Ledger) !! "job-1"
              = Some (mkJobRecord 0 true)).
  { rewrite Heq. vm_compute. reflexivity. }
  vm_compute in H. discriminate H.
Qed.

(** ** C10 *)

Lemma attach_failure_keeps_entry_witness :
  fst (run attachWorld gcOpts (fresh ∅)) = Ok (Some refused) /\
  previousJobs (snd (run attachWorld gcOpts (fresh ∅)))
  = Some {[ "job-2" := mkJobRecord 5000 false ]} /\
  store (snd (run attachWorld gcOpts (fresh ∅))) !! gcPath
  = Some (Json {[ "job-2" := mkJobRecord 5000 false ]}) /\
  startedJob (audit (snd (run attachWorld gcOpts (fresh ∅)))) = 0 /\
  numberOfObjects (audit (snd (run attachWorld gcOpts (fresh ∅)))) = None.
Proof.
  destruct (attach_failure_keeps_entry attachWorld gcOpts (fresh ∅)
              beforeCreate (mkJobDef (Some "gc") [mkPhase None])
              ["/a/o"] "job-2" refused)
    as (L & HL & _ & _ & Hcb & _ & Hst & Hp & Hs & Hn & _).
  - vm_compute. reflexivity.
  - vm_compute. reflexivity.
  - vm_compute. reflexivity.
  - discriminate.
  - reflexivity.
  - reflexivity.
  - reflexivity.
  - reflexivity.
  - assert (L = ∅) as ->.
    { vm_compute in HL. injection HL as <-. vm_compute. reflexivity. }
    split; [exact Hcb|]. split; [exact Hp|].
    split; [rewrite Hst; vm_compute; reflexivity|].
    split; [exact Hs|exact Hn].
Defined.

(** ** Further properties *)

Lemma no_job_unless_all_stages_pass_witness :
  fst (pipeline (take 7 (stages noObjectsWorld gcOpts))
         (started noObjectsWorld (fresh ∅))) <> Ok tt /\
  startedJob (audit (snd (run noObjectsWorld gcOpts (fresh ∅)))) = 0 /\
  numberOfObjects (audit (snd (run noObjectsWorld gcOpts (fresh ∅)))) = None.
Proof.
  assert (H : fst (pipeline (take 7 (stages noObjectsWorld gcOpts))
                     (started noObjectsWorld (fresh ∅))) <> Ok tt)
    by (vm_compute; discriminate).
  split; [exact H|].
  exact (proj2 (no_job_unless_all_stages_pass noObjectsWorld gcOpts
                  (fresh ∅) H)).
Defined.

Lemma disabled_run_is_silent_witness :
  forceRun gcOff = false /\ disableAllJobs gcOff = Some true /\
  fst (run plainWorld gcOff (fresh ∅)) = Ok None /\
  store (snd (run plainWorld gcOff (fresh ∅))) = ∅.
Proof.
  assert (H1 : forceRun gcOff = false) by reflexivity.
  assert (H2 : disableAllJobs gcOff = Some true \/ jobEnabled gcOff = Some false)
    by (left; reflexivity).
  split; [exact H1|]. split; [reflexivity|].
  destruct (disabled_run_is_silent plainWorld gcOff (fresh ∅) H1 H2)
    as (msg & Hcb & _ & Hst & _).
  split; [exact Hcb|exact Hst].
Defined.

Lemma forced_run_ignores_switches_witness :
  forceRun gcForced = true /\
  run plainWorld (with_switches (Some true) (Some false) gcForced) (fresh ∅)
  = run plainWorld gcForced (fresh ∅).
Proof.
  split; [reflexivity|].
  exact (forced_run_ignores_switches plainWorld gcForced (Some true)
           (Some false) (fresh ∅) eq_refl).
Defined.

Lemma audit_records_for_finished_jobs_witness :
  preAudit eightDaysWorld = None /\
  (exists evs,
    trace (snd (auditParsed eightDaysWorld (oneEntry 0 false) (fresh ∅)))
    = trace (fresh ∅) ++ evs /\
    auditOf (doneJob "job-1") ∈ omap audit_logged evs) /\
  (exists evs,
    trace (snd (auditParsed outOfOrderWorld twoUnaudited (fresh ∅)))
    = trace (fresh ∅) ++ evs /\
    omap audit_logged evs ≡ₚ [auditOf (doneJob "job-1")]).
Proof.
  split; [reflexivity|]. split.
  - destruct (audit_records_for_finished_jobs eightDaysWorld
                (oneEntry 0 false) (fresh ∅) eq_refl)
      as (evs & Ht & Hiff & _).
    exists evs. split; [exact Ht|]. apply Hiff. split.
    + intros k r _ _. exists (doneJob k). reflexivity.
    + exists "job-1", (mkJobRecord 0 false), (doneJob "job-1").
      split; [vm_compute; reflexivity|]. split; [reflexivity|].
      split; [reflexivity|]. split; [discriminate|]. split; [discriminate|].
      reflexivity.
  - destruct (audit_records_for_finished_jobs outOfOrderWorld twoUnaudited
                (fresh ∅) eq_refl) as (evs & Ht & _ & Hcount).
    exists evs. split; [exact Ht|].
    assert (Hja : to_audit (map_to_list twoUnaudited) = ["job-1"; "job-2"])
      by (vm_compute; reflexivity).
    specialize (Hcount (to_audit (map_to_list twoUnaudited))
                  [doneJob "job-1"; liveJob "job-2" true]
                  (NoDup_to_audit _) (elem_of_to_audit _)).
    rewrite Hja in Hcount.
    apply Hcount.
    apply List.Forall2_cons; [reflexivity|].
    apply List.Forall2_cons; [reflexivity|]. apply List.Forall2_nil.
Defined.

Lemma partition_thresholds_witness :
  (forall n, clock eightDaysWorld n = 8 * day) /\
  exists ja jd s',
    partitionJobs eightDaysWorld (map_to_list twoEntries) [] [] (fresh ∅)
    = (Ok (ja, jd), s') /\
    "job-1" ∈ ja /\ ("job-0" ∉ ja) /\ "job-0" ∈ jd.
Proof.
  assert (H : forall n, clock eightDaysWorld n = 8 * day) by reflexivity.
  split; [exact H|].
  destruct (partition_thresholds eightDaysWorld (8 * day) twoEntries
              (fresh ∅) H) as (ja & jd & s' & Hrun & _ & Hja & Hjd).
  exists ja, jd, s'. split; [exact Hrun|]. split; [|split].
  - apply Hja. exists (mkJobRecord 0 false).
    split; vm_compute; reflexivity.
  - intros Hin. apply Hja in Hin as (r & Hr & Ha).
    vm_compute in Hr. injection Hr as <-. discriminate Ha.
  - apply Hjd. exists (mkJobRecord 0 true).
    split; [vm_compute; reflexivity|]. vm_compute. discriminate.
Defined.

Lemma missing_jobs_object_is_empty_witness :
  store (fresh ∅) !! previousJobsObject gcOpts = None /\
  fst (auditPreviousJobs plainWorld gcOpts (fresh ∅)) = Ok tt /\
  previousJobs (snd (auditPreviousJobs plainWorld gcOpts (fresh ∅)))
  = Some ∅.
Proof.
  assert (H : store (fresh ∅) !! previousJobsObject gcOpts = None)
    by reflexivity.
  split; [exact H|].
  destruct (missing_jobs_object_is_empty plainWorld gcOpts (fresh ∅)
              (or_introl (conj eq_refl H))) as [msg ->].
  split; reflexivity.
Defined.

Lemma failed_fetch_puts_empty_jobs_object_witness :
  getObject_fault unreadableWorld (previousJobsObject gcOpts) = Some refused /\
  fst (run unreadableWorld gcOpts (fresh corruptStore)) = Ok (Some refused) /\
  store (snd (run unreadableWorld gcOpts (fresh corruptStore)))
  = stored unreadableWorld gcOpts ∅ corruptStore.
Proof.
  split; [reflexivity|].
  assert (Hcode : err_code refused <> Some "ResourceNotFound")
    by discriminate.
  destruct (failed_fetch_puts_empty_jobs_object unreadableWorld gcOpts
              (fresh corruptStore) refused eq_refl eq_refl Hcode eq_refl)
    as (Hcb & _ & _ & Hst).
  split; [exact Hcb|exact Hst].
Defined.

Lemma successful_run_records_job_witness :
  noJobStart gcOpts <> Some true /\
  fst (pipeline (stages plainWorld gcOpts) (started plainWorld (fresh ∅)))
  = Ok tt /\
  fst (run plainWorld gcOpts (fresh ∅)) = Ok None /\
  startedJob (audit (snd (run plainWorld gcOpts (fresh ∅)))) = 1.
Proof.
  assert (H1 : noJobStart gcOpts <> Some true) by discriminate.
  assert (H2 : pipeline (stages plainWorld gcOpts)
                 (started plainWorld (fresh ∅))
               = (Ok tt, snd (pipeline (stages plainWorld gcOpts)
                                (started plainWorld (fresh ∅)))))
    by (vm_compute; reflexivity).
  split; [exact H1|]. split; [vm_compute; reflexivity|].
  destruct (successful_run_records_job plainWorld gcOpts (fresh ∅) _ H2 H1)
    as (jid & objs & L & r & _ & _ & _ & _ & _ & _ & _ & Hcb & Hst & _).
  split; [exact Hcb|exact Hst].
Defined.

Lemma job_definition_name_rule_witness :
  getJobDefinition plainWorld = inr (mkJobDef None [mkPhase None]) /\
  fst (invokeGetJobDefinition plainWorld gcOpts (fresh ∅)) = Ok tt /\
  exists d,
    job (snd (invokeGetJobDefinition plainWorld gcOpts (fresh ∅))) = Some d /\
    def_name d = Some "gc".
Proof.
  split; [reflexivity|].
  destruct (job_definition_name_rule plainWorld gcOpts (fresh ∅)
              (mkJobDef None [mkPhase None]) eq_refl) as (Hiff & Hok & _).
  assert (H : fst (invokeGetJobDefinition plainWorld gcOpts (fresh ∅))
              = Ok tt) by (apply Hiff; left; reflexivity).
  split; [exact H|].
  destruct (Hok H) as (d & Hd & Hn & _). exists d. split; [exact Hd|exact Hn].
Defined.

Lemma job_definition_asset_rule_witness :
  getJobDefinition ownAssetsWorld = inr ownAssets /\
  fst (invokeGetJobDefinition ownAssetsWorld gcAsset (fresh ∅)) = Ok tt /\
  exists d,
    job (snd (invokeGetJobDefinition ownAssetsWorld gcAsset (fresh ∅)))
    = Some d /\
    Forall (fun p => exists l, assets p = Some l /\ gcAssetPath ∈ l)
      (phases d).
Proof.
  split; [reflexivity|]. split; [reflexivity|].
  destruct (job_definition_asset_rule ownAssetsWorld gcAsset (fresh ∅)
              ownAssets eq_refl eq_refl) as (d & Hd & Hph).
  exists d. split; [exact Hd|].
  change (truthy (assetObject gcAsset)) with (Some gcAssetPath) in Hph.
  cbv beta iota in Hph.
  induction Hph as [|p p' ps ps' (l' & Hl' & Hin & _) _ IH];
    constructor; [|exact IH].
  exists l'. split; [exact Hl'|exact Hin].
Defined.

Lemma asset_uploaded_only_if_file_witness :
  exists evs,
    trace (snd (setupAssetObject plainWorld gcAsset (fresh ∅)))
    = trace (fresh ∅) ++ evs /\
    EPut gcAssetPath (Raw "/opt/smartdc/common/bundle/mola.tar.gz") ∈ evs.
Proof.
  destruct (asset_uploaded_only_if_file plainWorld gcAsset (fresh ∅))
    as (_ & _ & evs & Ht & Hiff).
  exists evs. split; [exact Ht|]. apply Hiff.
  exists "/opt/smartdc/common/bundle/mola.tar.gz", 1.
  repeat split; reflexivity.
Defined.

Lemma check_passes_only_without_live_job_witness :
  fst (checkRunningJobs openInputWorld gcOpts (fresh ∅)) = Ok tt /\
  exists names ids jobs,
    listJobs openInputWorld (jobName gcOpts) = inr names /\
    walked names ids /\ fetches openInputWorld ids jobs /\
    omap fetched_id
      (drop (length (trace (fresh ∅)))
         (trace (snd (checkRunningJobs openInputWorld gcOpts (fresh ∅)))))
    = ids /\
    (Forall (fun j => job_state j = "done") jobs \/
     exists j,
       runningJobs jobs = [j] /\ job_inputDone j = false /\
       cancelJob openInputWorld (job_id j) = None).
Proof.
  split; [reflexivity|].
  exact (check_passes_only_without_live_job openInputWorld gcOpts (fresh ∅)
           eq_refl).
Defined.

Lemma jobs_object_written_at_most_once_witness :
  (forall f p, assetFile gcAsset = Some f -> assetObject gcAsset = Some p ->
               p <> previousJobsObject gcAsset) /\
  exists evs,
    trace (snd (run plainWorld gcAsset (fresh ∅))) = trace (fresh ∅) ++ evs /\
    (omap (put_at (previousJobsObject gcAsset)) evs = [] \/
     exists L,
       previousJobs (snd (run plainWorld gcAsset (fresh ∅))) = Some L /\
       omap (put_at (previousJobsObject gcAsset)) evs = [JSON_stringify L]).
Proof.
  assert (H : forall f p, assetFile gcAsset = Some f ->
                assetObject gcAsset = Some p ->
                p <> previousJobsObject gcAsset).
  { intros f p _ Hp. injection Hp as <-. discriminate. }
  split; [exact H|].
  exact (jobs_object_written_at_most_once plainWorld gcAsset H (fresh ∅)).
Defined.

Lemma dry_run_starts_nothing_witness :
  noJobStart gcDry = Some true /\
  fst (pipeline (stages plainWorld gcDry) (started plainWorld (fresh ∅)))
  = Ok tt /\
  exists evs,
    trace (snd (run plainWorld gcDry (fresh ∅))) = trace (fresh ∅) ++ evs /\
    Forall dry_event evs /\
    startedJob (audit (snd (run plainWorld gcDry (fresh ∅)))) = 0 /\
    numberOfObjects (audit (snd (run plainWorld gcDry (fresh ∅)))) = None.
Proof.
  split; [reflexivity|]. split; [vm_compute; reflexivity|].
  exact (dry_run_starts_nothing plainWorld gcDry eq_refl (fresh ∅)).
Defined.
